(** * SimpleFS: a shallow embedding of [disk.c] and [fs.c]

    The development follows the two C sources function by function.
    C objects are modelled by value, with the state every function can
    reach (the image file behind the descriptor, the [malloc] heap of
    [Inode] objects, the log of system calls that touch the device)
    threaded through a small state-and-error monad. *)

From Stdlib Require Import ZArith Lia Bool.
From stdpp Require Import base option list.

Open Scope Z_scope.

(** ** Constants of the on-disk format *)

(** Modelled from the spec: the header [sfs/disk.h] is not part of the
    sources at hand; section 3 fixes the block size to 4096 bytes. *)
Definition BLOCK_SIZE : Z := 4096.

(** Modelled from the spec: [sfs/disk.h] is missing; section 7 asks for
    an error value that no byte count can take (a negative return). *)
Definition DISK_FAILURE : Z := -1.

(** Modelled from the spec: [sfs/fs.h] is missing; section 3 gives the
    superblock identifier. *)
Definition MAGIC_NUMBER : Z := 0xf0f03410.

(** Modelled from the spec: [sfs/fs.h] is missing; section 3. *)
Definition INODES_PER_BLOCK : Z := 128.

(** Modelled from the spec: [sfs/fs.h] is missing; section 3. *)
Definition POINTERS_PER_INODE : Z := 5.

(** Modelled from the spec: [sfs/fs.h] is missing; section 3. *)
Definition POINTERS_PER_BLOCK : Z := 1024.

Definition INT_MAX : Z := 2147483647.

(** ** Machine integers *)

(** Conversion to [uint32_t]. *)
Definition u32 (z : Z) : Z := z mod 2 ^ 32.

(** Conversion of a [uint32_t] value to [int] (two's complement). *)
Definition to_int (z : Z) : Z :=
  if u32 z <? 2 ^ 31 then u32 z else u32 z - 2 ^ 32.

(** Conversion of a [size_t] product to [off_t]. *)
Definition to_off_t (z : Z) : Z :=
  let u := z mod 2 ^ 64 in if u <? 2 ^ 63 then u else u - 2 ^ 64.

(** ** Data model *)

(** Modelled from the spec: the declarations of [sfs/fs.h] are missing;
    section 6 gives the layout.  A block is the array of its 1024
    32-bit words, the other members of the [Block] union are views
    over the same words. *)
Abbreviation Block := (list Z).

Definition zero_block : Block := replicate (Z.to_nat POINTERS_PER_BLOCK) 0.

Definition word (b : Block) (i : Z) : Z := default 0 (b !! Z.to_nat i).

Definition set_word (i : Z) (v : Z) (b : Block) : Block :=
  <[Z.to_nat i := v]> b.

Record SuperBlock := mkSuperBlock {
  magic_number : Z;
  sb_blocks : Z;
  inode_blocks : Z;
  inodes : Z
}.

Record Inode := mkInode {
  valid : Z;
  size : Z;
  direct : list Z;
  indirect : Z
}.

(** [blk.super] *)
Definition block_super (b : Block) : SuperBlock :=
  {| magic_number := word b 0; sb_blocks := word b 1;
     inode_blocks := word b 2; inodes := word b 3 |}.

(** [blk.super = sp] *)
Definition set_block_super (sp : SuperBlock) (b : Block) : Block :=
  set_word 3 (inodes sp) (set_word 2 (inode_blocks sp)
    (set_word 1 (sb_blocks sp) (set_word 0 (magic_number sp) b))).

(** [blk.inodes[j]]: eight words from word [8 j]. *)
Definition block_inode (b : Block) (j : Z) : Inode :=
  {| valid := word b (8 * j);
     size := word b (8 * j + 1);
     direct := map (fun k => word b (8 * j + 2 + k)) [0; 1; 2; 3; 4];
     indirect := word b (8 * j + 7) |}.

(** [in.direct[k]] *)
Definition direct_at (ino : Inode) (k : Z) : Z :=
  default 0 (direct ino !! Z.to_nat k).

(** [blk.inodes[j] = ino] *)
Definition set_block_inode (j : Z) (ino : Inode) (b : Block) : Block :=
  set_word (8 * j + 7) (indirect ino)
    (set_word (8 * j + 6) (direct_at ino 4)
    (set_word (8 * j + 5) (direct_at ino 3)
    (set_word (8 * j + 4) (direct_at ino 2)
    (set_word (8 * j + 3) (direct_at ino 1)
    (set_word (8 * j + 2) (direct_at ino 0)
    (set_word (8 * j + 1) (size ino)
    (set_word (8 * j) (valid ino) b))))))).

(** [blk.inodes[j].valid = v] *)
Definition set_inode_valid (j : Z) (v : Z) (b : Block) : Block :=
  set_word (8 * j) v b.

(** [blk.pointers[i]] *)
Definition block_pointer (b : Block) (i : Z) : Z := word b i.

(** Modelled from the spec: [struct Disk] of the missing [sfs/disk.h],
    with the four members [disk_open] initialises. *)
Record Disk := mkDisk {
  fd : Z;
  blocks : Z;
  reads : Z;
  writes : Z
}.

(** A pointer to an [Inode] object: [None] is [NULL]. *)
Abbreviation ptr := (option nat).
Abbreviation NULL := (@None nat).

(** Modelled from the spec: [struct FileSystem] of the missing
    [sfs/fs.h].  [disk] is the [Disk *] member, [free_blocks] the
    [bool *] array ([None] while no array is attached). *)
Record FileSystem := mkFileSystem {
  disk : option Disk;
  meta_data : SuperBlock;
  free_blocks : option (list bool)
}.

(** ** The machine *)

(** System calls that transfer a block, with the byte position. *)
Inductive io_event :=
| io_read (pos : Z)
| io_write (pos : Z).

(** [file] is the image behind the descriptor, in whole blocks;
    [trace] logs the transfers; [heap] holds the [Inode] objects
    obtained from [malloc] ([None] once released).  [stack_block] and
    [stack_ptr] are the indeterminate contents that an automatic
    [Block], respectively an automatic [Inode *], has before its first
    assignment. *)
Record Machine := mkMachine {
  file : list Block;
  trace : list io_event;
  heap : list (option Inode);
  stack_block : Block;
  stack_ptr : ptr
}.

Definition log (e : io_event) (m : Machine) : Machine :=
  {| file := file m; trace := trace m ++ [e]; heap := heap m;
     stack_block := stack_block m; stack_ptr := stack_ptr m |}.

Definition set_file (f : list Block) (m : Machine) : Machine :=
  {| file := f; trace := trace m; heap := heap m;
     stack_block := stack_block m; stack_ptr := stack_ptr m |}.

Definition set_heap (h : list (option Inode)) (m : Machine) : Machine :=
  {| file := file m; trace := trace m; heap := h;
     stack_block := stack_block m; stack_ptr := stack_ptr m |}.

Inductive outcome (A : Type) : Type :=
| Ret (a : A) (m : Machine)
| Abort            (* a failed [assert] *)
| Fault.           (* undefined behaviour: bad dereference or index *)
Arguments Ret {A} a m.
Arguments Abort {A}.
Arguments Fault {A}.

Definition M (A : Type) : Type := Machine -> outcome A.

#[global] Instance M_ret : MRet M := fun A a m => Ret a m.

#[global] Instance M_bind : MBind M := fun A B f c m =>
  match c m with
  | Ret a m' => f a m'
  | Abort => Abort
  | Fault => Fault
  end.

Definition assert (b : bool) : M unit :=
  fun m => if b then Ret () m else Abort.

Definition fault {A : Type} : M A := fun _ => Fault.

Definition uninit_block : M Block := fun m => Ret (stack_block m) m.

Definition uninit_ptr : M ptr := fun m => Ret (stack_ptr m) m.

(** *** The heap of [Inode] objects *)

(** [p = malloc(sizeof(Inode)); memcpy(p, &v, sizeof(Inode))] *)
Definition malloc_inode (v : Inode) : M ptr := fun m =>
  Ret (Some (length (heap m))) (set_heap (heap m ++ [Some v]) m).

(** [*p] *)
Definition deref (p : ptr) : M Inode := fun m =>
  match p with
  | None => Fault
  | Some a => match heap m !! a with
              | Some (Some v) => Ret v m
              | _ => Fault
              end
  end.

(** [*p = v] *)
Definition assign (p : ptr) (v : Inode) : M unit := fun m =>
  match p with
  | None => Fault
  | Some a => match heap m !! a with
              | Some (Some _) => Ret () (set_heap (<[a := Some v]> (heap m)) m)
              | _ => Fault
              end
  end.

(** [free(p)] *)
Definition free_inode (p : ptr) : M unit := fun m =>
  match p with
  | None => Ret () m
  | Some a => match heap m !! a with
              | Some (Some _) => Ret () (set_heap (<[a := None]> (heap m)) m)
              | _ => Fault
              end
  end.

(** *** The system calls on the image *)

(** [lseek(fd, offset, SEEK_SET)]: the new position, or -1 for a
    negative one. *)
Definition sys_lseek (offset : Z) : Z :=
  if to_off_t offset <? 0 then -1 else to_off_t offset.

(** [read(fd, data, BLOCK_SIZE)] at position [pos]: a whole block when
    the image has it, nothing at or past its end. *)
Definition sys_read (pos : Z) (data : Block) : M (Z * Block) := fun m =>
  match file m !! Z.to_nat (pos / BLOCK_SIZE) with
  | Some b => Ret (BLOCK_SIZE, b) (log (io_read pos) m)
  | None => Ret (0, data) (log (io_read pos) m)
  end.

(** [write(fd, data, BLOCK_SIZE)] at position [pos]; a write past the
    end leaves a hole of zeros. *)
Definition sys_write (pos : Z) (data : Block) : M Z := fun m =>
  let i := Z.to_nat (pos / BLOCK_SIZE) in
  Ret BLOCK_SIZE
      (log (io_write pos)
         (set_file (take i (file m)
                    ++ replicate (i - length (file m)) zero_block
                    ++ data :: drop (S i) (file m)) m)).

(** ** disk.c *)

Definition disk_sanity_check (disk : option Disk) (block : Z)
    (data : option Block) : bool :=
  match disk with
  | None => false                                   (* disk == NULL *)
  | Some d =>
      if fd d <? 0 then false                       (* disk->fd < 0 *)
      else if blocks d <=? block then false         (* invalid block *)
      else match data with
           | None => false                          (* invalid data *)
           | Some _ => true
           end
  end.

(** The buffer is passed as [Some] of its contents, [None] for a null
    pointer; the contents after the call come back with the result. *)
Definition disk_read (disk : option Disk) (block : Z)
    (data : option Block) : M (Z * option Block) :=
  if negb (disk_sanity_check disk block data) then mret (DISK_FAILURE, data)
  else
    let pos := sys_lseek (block * BLOCK_SIZE) in
    if pos =? -1 then mret (DISK_FAILURE, data)
    else
      '(n, b) ← sys_read pos (default zero_block data);
      mret (n, Some b).

Definition disk_write (disk : option Disk) (block : Z)
    (data : option Block) : M Z :=
  if negb (disk_sanity_check disk block data) then mret DISK_FAILURE
  else
    let pos := sys_lseek (block * BLOCK_SIZE) in
    if pos =? -1 then mret DISK_FAILURE
    else sys_write pos (default zero_block data).

(** [disk_read(disk, block, blk.data)] for an automatic [Block blk]. *)
Definition disk_read_blk (disk : option Disk) (block : Z) (blk : Block)
    : M (Z * Block) :=
  '(n, d) ← disk_read disk block (Some blk);
  mret (n, default blk d).

(** [disk_write(disk, block, blk.data)] *)
Definition disk_write_blk (disk : option Disk) (block : Z) (blk : Block)
    : M Z :=
  disk_write disk block (Some blk).

(** ** fs.c *)

(** *** Loops *)

(** What one turn of a loop body decides: go on with the loop state, or
    leave the function with a value. *)
Inductive step (St R : Type) : Type :=
| Continue (s : St)
| Return (r : R).
Arguments Continue {St R} s.
Arguments Return {St R} r.

(** [for (int i = start; ...; i++) body], taken [n] times from [i].
    The counter is an [int]: a turn beyond [INT_MAX] cannot be reached
    without a signed overflow. *)
Fixpoint for_int {St R : Type} (n : nat) (i : Z)
    (body : Z -> St -> M (step St R)) (s : St) : M (step St R) :=
  match n with
  | O => mret (Continue s)
  | S n' =>
      if INT_MAX <? i then fault
      else
        r ← body i s;
        match r with
        | Continue s' => for_int n' (i + 1) body s'
        | Return v => mret (Return v)
        end
  end.

(** [a[idx] = v] on a [bool] array without bounds: an index outside the
    array is undefined behaviour. *)
Definition store_bit (a : list bool) (idx : Z) (v : bool) : M (list bool) :=
  if (0 <=? idx) && (idx <? Z.of_nat (length a))
  then mret (<[Z.to_nat idx := v]> a)
  else fault.

(** *** fs_format *)

(** [ceil(blocks * 0.1)]: the double product rounds to the exact tenth
    for every block count a [size_t] device can have in practice
    (below 2^53), so the ceiling is the integer one. *)
Definition ceil_tenth (n : Z) : Z := (n + 9) / 10.

Definition zero_inode : Inode :=
  {| valid := 0; size := 0; direct := [0; 0; 0; 0; 0]; indirect := 0 |}.

(** [for (i = 0; i < INODES_PER_BLOCK; i++) blk.inodes[i] = inode;] *)
Definition fill_inodes (ino : Inode) (blk : Block) : Block :=
  foldl (fun b j => set_block_inode j ino b) blk
        (map Z.of_nat (seq 0 (Z.to_nat INODES_PER_BLOCK))).

Definition fs_format (fs : FileSystem) (disk : option Disk) : M bool :=
  _ ← assert (bool_decide (disk ≠ None));
  let nblocks := from_option blocks 0 disk in
  let inodes := u32 (ceil_tenth nblocks) in
  let sp := {| magic_number := MAGIC_NUMBER;
               sb_blocks := u32 nblocks;
               inode_blocks := inodes;
               inodes := u32 (inodes * INODES_PER_BLOCK) |} in
  blk ← uninit_block;
  let blk := set_block_super sp blk in
  w ← disk_write_blk disk 0 blk;
  if w =? DISK_FAILURE then mret false
  else
    let blk := fill_inodes zero_inode blk in
    r ← for_int (Z.to_nat inodes) 1
          (fun i (_ : unit) =>
             w ← disk_write_blk disk i blk;
             if w =? DISK_FAILURE then mret (Return false)
             else mret (Continue ()))
          ();
    match r with
    | Return v => mret v
    | Continue _ => mret false
    end.

(** *** fs_initialize_free_block_bitmap *)

Definition set_free_blocks (fs : FileSystem) (a : list bool) : FileSystem :=
  {| disk := disk fs; meta_data := meta_data fs; free_blocks := Some a |}.

(** The innermost loop, over the direct pointers of one inode. *)
Definition mark_direct (fs : FileSystem) (ino : Inode)
    (a : list bool) : M (step (list bool) unit) :=
  for_int (Z.to_nat POINTERS_PER_INODE) 0
    (fun p a =>
       if negb (direct_at ino p =? 0) then
         let idx := to_int (direct_at ino p - 1 - inode_blocks (meta_data fs)) in
         a' ← store_bit a idx true;
         mret (Continue a')
       else mret (Continue a))
    a.

(** The loop over the inodes of one block. *)
Definition mark_block (fs : FileSystem) (blk : Block)
    (a : list bool) : M (step (list bool) unit) :=
  for_int (Z.to_nat INODES_PER_BLOCK) 0
    (fun j a =>
       let ino := block_inode blk j in
       if valid ino =? 0 then mret (Continue a)
       else mark_direct fs ino a)
    a.

Definition fs_initialize_free_block_bitmap (fs : FileSystem) : M FileSystem :=
  _ ← assert (bool_decide (disk fs ≠ None));
  let data_blocks :=
    u32 (sb_blocks (meta_data fs) - inode_blocks (meta_data fs)) in
  let free_blocks := replicate (Z.to_nat data_blocks) false in
  r ← for_int (Z.to_nat (inode_blocks (meta_data fs))) 1
        (fun i a =>
           blk ← uninit_block;
           '(n, blk) ← disk_read_blk (disk fs) i blk;
           if n =? DISK_FAILURE then mret (Return ())
           else mark_block fs blk a)
        free_blocks;
  match r with
  | Return _ => mret fs
  | Continue a => mret (set_free_blocks fs a)
  end.

(** *** fs_mount *)

Definition fs_mount (fs : FileSystem) (disk : option Disk)
    : M (bool * FileSystem) :=
  _ ← assert (bool_decide (disk ≠ None));
  blk ← uninit_block;
  '(n, blk) ← disk_read_blk disk 0 blk;
  if n =? DISK_FAILURE then mret (false, fs)
  else if negb (magic_number (block_super blk) =? MAGIC_NUMBER)
  then mret (false, fs)
  else
    let fs := {| disk := disk; meta_data := block_super blk;
                 free_blocks := free_blocks fs |} in
    fs ← fs_initialize_free_block_bitmap fs;
    mret (false, fs).

(** *** fs_create *)

(** [(i - 1) * INODES_PER_BLOCK + j] in [int] arithmetic. *)
Definition int_value (z : Z) : M Z :=
  if (- INT_MAX - 1 <=? z) && (z <=? INT_MAX) then mret z else fault.

Definition set_valid (v : Z) (ino : Inode) : Inode :=
  {| valid := v; size := size ino; direct := direct ino;
     indirect := indirect ino |}.

Definition fs_create (fs : FileSystem) : M Z :=
  _ ← assert (bool_decide (disk fs ≠ None));
  r ← for_int (Z.to_nat (inode_blocks (meta_data fs))) 1
        (fun i (_ : unit) =>
           blk ← uninit_block;
           '(n, blk) ← disk_read_blk (disk fs) i blk;
           if negb (n =? DISK_FAILURE) then mret (Return (-1))
           else
             for_int (Z.to_nat INODES_PER_BLOCK) 0
               (fun j (_ : unit) =>
                  if valid (block_inode blk j) =? 0 then
                    let blk := set_inode_valid j 1 blk in
                    inode ← int_value ((i - 1) * INODES_PER_BLOCK + j);
                    w ← disk_write_blk (disk fs) i blk;
                    if w =? DISK_FAILURE then mret (Return (-1))
                    else mret (Return inode)
                  else mret (Continue ()))
               ())
        ();
  match r with
  | Return v => mret v
  | Continue _ => mret (-1)
  end.

(** *** fs_load_inode and fs_save_inode *)

(** [node] is the function's own copy of the caller's pointer.  The
    second component of the result is the value that copy holds when
    the function returns; nothing in C hands it back to the caller. *)
Definition fs_load_inode (fs : FileSystem) (inode_number : Z) (node : ptr)
    : M (bool * ptr) :=
  _ ← assert (bool_decide (disk fs ≠ None));
  _ ← assert (bool_decide (node = NULL));
  let blk_number := inode_number / INODES_PER_BLOCK in
  let offset := inode_number - INODES_PER_BLOCK * blk_number in
  blk ← uninit_block;
  '(n, blk) ← disk_read_blk (disk fs) blk_number blk;
  if n =? DISK_FAILURE then mret (false, node)
  else
    let ino := block_inode blk offset in
    if valid ino =? 0 then mret (false, node)
    else
      node ← malloc_inode ino;
      mret (true, node).

Definition fs_save_inode (fs : FileSystem) (inode_number : Z) (node : ptr)
    : M bool :=
  _ ← assert (bool_decide (disk fs ≠ None));
  _ ← assert (bool_decide (node ≠ NULL));
  let blk_number := inode_number / INODES_PER_BLOCK in
  let offset := inode_number - INODES_PER_BLOCK * blk_number in
  blk ← uninit_block;
  '(n, blk) ← disk_read_blk (disk fs) blk_number blk;
  if n =? DISK_FAILURE then mret false
  else
    v ← deref node;
    let blk := set_block_inode offset v blk in
    w ← disk_write_blk (disk fs) blk_number blk;
    if w =? DISK_FAILURE then mret false
    else mret true.

(** *** fs_remove *)

Definition set_direct (k : Z) (v : Z) (ino : Inode) : Inode :=
  {| valid := valid ino; size := size ino;
     direct := <[Z.to_nat k := v]> (direct ino);
     indirect := indirect ino |}.

Definition set_indirect (v : Z) (ino : Inode) : Inode :=
  {| valid := valid ino; size := size ino; direct := direct ino;
     indirect := v |}.

(** [fs->free_blocks[num] = false] *)
Definition clear_bit (fs : FileSystem) (num : Z) : M FileSystem :=
  match free_blocks fs with
  | None => fault
  | Some a =>
      a' ← store_bit a num false;
      mret (set_free_blocks fs a')
  end.

(** The part of [fs_remove] after the call of [fs_load_inode]; [in_] is
    the local [in] of [fs_remove]. *)
Definition fs_remove_loaded (fs : FileSystem) (inode_number : Z) (in_ : ptr)
    : M (bool * FileSystem) :=
  (* Release direct blocks *)
  r ← for_int (Z.to_nat POINTERS_PER_INODE) 0
        (fun i fs =>
           v ← deref in_;
           let num := to_int (direct_at v i) in
           if num =? 0 then mret (Continue fs)
           else
             fs ← clear_bit fs num;
             v ← deref in_;
             _ ← assign in_ (set_direct i 0 v);
             mret (Continue fs))
        fs;
  match r with
  | Return x => mret x
  | Continue fs =>
      (* Release indirect blocks *)
      v ← deref in_;
      r ← (if BLOCK_SIZE * POINTERS_PER_INODE <? size v then
             _ ← assert (0 <? indirect v);
             blk ← uninit_block;
             '(n, blk) ← disk_read_blk (disk fs) (indirect v) blk;
             if n =? DISK_FAILURE then
               _ ← free_inode in_;
               mret (Return (false, fs))
             else
               for_int (Z.to_nat POINTERS_PER_BLOCK) 0
                 (fun i fs =>
                    let num := to_int (block_pointer blk i) in
                    if num =? 0 then mret (Continue fs)
                    else
                      fs ← clear_bit fs num;
                      mret (Continue fs))
                 fs
           else mret (Continue fs));
      match r with
      | Return x => mret x
      | Continue fs =>
          v ← deref in_;
          _ ← assign in_ (set_valid 0 v);
          v ← deref in_;
          _ ← assign in_ (set_indirect 0 v);
          res ← fs_save_inode fs inode_number in_;
          _ ← free_inode in_;
          mret (res, fs)
      end
  end.

Definition fs_remove (fs : FileSystem) (inode_number : Z)
    : M (bool * FileSystem) :=
  let in_ : ptr := NULL in
  '(res, _) ← fs_load_inode fs inode_number in_;
  if negb res then mret (false, fs)
  else fs_remove_loaded fs inode_number in_.

(** *** fs_stat *)

(** The source declares [res] twice in this function; the second one,
    the [int] that receives [in->size], is the value returned. *)
Definition fs_stat (fs : FileSystem) (inode_number : Z) : M Z :=
  in_ ← uninit_ptr;
  '(res, _) ← fs_load_inode fs inode_number in_;
  if negb res then mret (-1)
  else
    v ← deref in_;
    let res := to_int (size v) in
    _ ← free_inode in_;
    mret res.

(** *** fs_read and fs_write *)

(** The loop over the direct pointers has no complete body in the
    source ([if (i)] and nothing else): it is taken to do nothing.  The
    buffer comes back as the second component. *)
Definition fs_read (fs : FileSystem) (inode_number : Z)
    (data : list Byte.byte) (length offset : Z) : M (Z * list Byte.byte) :=
  in_ ← uninit_ptr;
  '(res, _) ← fs_load_inode fs inode_number in_;
  if negb res then mret (-1, data)
  else
    _ ← for_int (Z.to_nat POINTERS_PER_INODE) 0
          (fun i (_ : unit) => mret (@Continue unit unit ()))
          ();
    mret (-1, data).

Definition fs_write (fs : FileSystem) (inode_number : Z)
    (data : list Byte.byte) (length offset : Z) : M Z :=
  mret (-1).

(** *** fs_debug *)

(** What [fs_debug] prints: the four lines on the superblock, and the
    three lines on an inode. *)
Inductive debug_line :=
| debug_super (magic_valid : bool) (nblocks ninode_blocks ninodes : Z)
| debug_inode (number size pointers : Z).

(** The loop that counts the assigned direct pointers. *)
Definition count_direct (ino : Inode) : M (step Z (list debug_line)) :=
  for_int (Z.to_nat POINTERS_PER_INODE) 0
    (fun k pointers =>
       if direct_at ino k =? 0 then mret (Continue pointers)
       else mret (Continue (pointers + 1)))
    0.

(** The loop over the inodes of block [i]. *)
Definition debug_block (i : Z) (blk : Block) (out : list debug_line)
    : M (step (list debug_line) (list debug_line)) :=
  for_int (Z.to_nat INODES_PER_BLOCK) 0
    (fun j out =>
       let inode := block_inode blk j in
       if valid inode =? 1 then
         n ← int_value ((i - 1) * INODES_PER_BLOCK + j);
         let inode_number := u32 n in
         r ← count_direct inode;
         match r with
         | Continue pointers =>
             mret (Continue
                     (out ++ [debug_inode (to_int inode_number)
                                (to_int (size inode)) pointers]))
         | Return v => mret (Return v)
         end
       else mret (Continue out))
    out.

(** The text written to the standard output is the result. *)
Definition fs_debug (disk : option Disk) : M (list debug_line) :=
  block ← uninit_block;
  '(n, block) ← disk_read_blk disk 0 block;
  if n =? DISK_FAILURE then mret []
  else
    let sp := block_super block in
    let out := [debug_super (magic_number sp =? MAGIC_NUMBER)
                  (sb_blocks sp) (inode_blocks sp) (inodes sp)] in
    r ← for_int (Z.to_nat (inode_blocks sp)) 1
          (fun i out =>
             blk ← uninit_block;
             '(n, blk) ← disk_read_blk disk i blk;
             if n =? DISK_FAILURE then mret (Return out)
             else debug_block i blk out)
          out;
    match r with
    | Continue out => mret out
    | Return out => mret out
    end.

(** ** Well-formed inode tables and the layout of the bitmap *)

(** Where [fs_initialize_free_block_bitmap] keeps the bit of block [p]:
    [p - 1 - inode_blocks]. *)
Definition bit_index (sb : SuperBlock) (p : Z) : nat :=
  Z.to_nat (p - 1 - inode_blocks sb).

(** [p] is a block of the data region. *)
Definition pointer_in_data_region (sb : SuperBlock) (p : Z) : bool :=
  (inode_blocks sb <? p) && (p <? sb_blocks sb).

(** Every assigned direct pointer of [ino] is in the data region. *)
Definition inode_pointers_ok (sb : SuperBlock) (ino : Inode) : bool :=
  forallb (fun k => (direct_at ino k =? 0)
                    || pointer_in_data_region sb (direct_at ino k))
          (seqZ 0 POINTERS_PER_INODE).

(** The same for every valid inode of the inode blocks of [img]. *)
Definition inode_table_ok (sb : SuperBlock) (img : list Block) : bool :=
  forallb (fun i =>
    forallb (fun j =>
      let ino := block_inode (default zero_block (img !! Z.to_nat i)) j in
      (valid ino =? 0) || inode_pointers_ok sb ino)
      (seqZ 0 INODES_PER_BLOCK))
    (seqZ 1 (inode_blocks sb)).

(** Bits that are set in [a] are set in [b], an array of the same
    length. *)
Definition keeps_marks (a b : list bool) : Prop :=
  length b = length a
  /\ forall idx, a !! idx = Some true -> b !! idx = Some true.

(** The number of assigned direct pointers. *)
Definition assigned_pointers (ino : Inode) : Z :=
  Z.of_nat (length (filter (fun p => p <> 0)
                      (map (direct_at ino) (seqZ 0 POINTERS_PER_INODE)))).

(** The line that [fs_debug] prints for slot [j] of block [i]. *)
Definition debug_line_of (i j : Z) (blk : Block) : debug_line :=
  debug_inode ((i - 1) * INODES_PER_BLOCK + j)
    (to_int (size (block_inode blk j)))
    (assigned_pointers (block_inode blk j)).

(** Every set bit of [a] is set in [a0] or is one of [P]. *)
Definition marks_only (a0 a : list bool) (P : nat -> Prop) : Prop :=
  forall idx, a !! idx = Some true -> a0 !! idx = Some true \/ P idx.

(** ** Concrete devices used by the examples *)

Module Fixture.

(** A 20-block device on descriptor 3. *)
Definition disk20 : Disk :=
  {| fd := 3; blocks := 20; reads := 0; writes := 0 |}.

Definition machine_of (img : list Block) : Machine :=
  {| file := img; trace := []; heap := [];
     stack_block := zero_block; stack_ptr := NULL |}.

(** A fresh image: twenty blocks of zeros. *)
Definition blank : Machine := machine_of (replicate 20 zero_block).

Definition fs0 : FileSystem :=
  {| disk := None; meta_data := mkSuperBlock 0 0 0 0; free_blocks := None |}.

Definition super20 : SuperBlock :=
  {| magic_number := MAGIC_NUMBER; sb_blocks := 20; inode_blocks := 2;
     inodes := 256 |}.

(** The image that [fs_format] leaves on [blank]. *)
Definition image0 : list Block :=
  set_block_super super20 zero_block :: replicate 19 zero_block.

(** An image with three files.  Inode 0 (block 1, slot 0) has 5 bytes in
    block 6; inode 1 (block 1, slot 1) has 24577 bytes in blocks 7, 8,
    10, 11, 12 and, through the indirect block 13, in blocks 14 and 15;
    inode 128 (block 2, slot 0) has 5 bytes in block 19. *)
Definition ino0 : Inode :=
  {| valid := 1; size := 5; direct := [6; 0; 0; 0; 0]; indirect := 0 |}.

Definition ino1 : Inode :=
  {| valid := 1; size := 24577; direct := [7; 8; 10; 11; 12];
     indirect := 13 |}.

Definition ino128 : Inode :=
  {| valid := 1; size := 5; direct := [19; 0; 0; 0; 0]; indirect := 0 |}.

Definition image3 : list Block :=
  [ set_block_super super20 zero_block;
    set_block_inode 1 ino1 (set_block_inode 0 ino0 zero_block);
    set_block_inode 0 ino128 zero_block ]
  ++ replicate 10 zero_block
  ++ [ set_word 1 15 (set_word 0 14 zero_block) ]
  ++ replicate 6 zero_block.

Definition populated : Machine := machine_of image3.

(** The handle as [fs_mount] leaves it on a 20-block image, with the
    bitmap [a]. *)
Definition fs20 (a : option (list bool)) : FileSystem :=
  {| disk := Some disk20; meta_data := super20; free_blocks := a |}.

(** The bitmap that [fs_mount] builds on [image3]. *)
Definition bitmap3 : list bool :=
  [false; false; false; true; true; true; false; true; true; true; false;
   false; false; false; false; false; true; false].

Definition mounted3 : FileSystem := fs20 (Some bitmap3).

(** [populated] after [fs_load_inode] of inode number 128: one read at
    byte 4096, and one object on the heap. *)
Definition loaded128 : Machine :=
  {| file := image3; trace := [io_read 4096]; heap := [Some ino0];
     stack_block := zero_block; stack_ptr := NULL |}.

(** [populated] with the object of inode 1 on the heap, at address 0. *)
Definition holding1 : Machine :=
  {| file := image3; trace := []; heap := [Some ino1];
     stack_block := zero_block; stack_ptr := NULL |}.

Definition hello : list Byte.byte :=
  [Byte.x68; Byte.x65; Byte.x6c; Byte.x6c; Byte.x6f].

Definition zeros5 : list Byte.byte := replicate 5 Byte.x00.

End Fixture.

(** ** Proof support *)

Ltac munfold :=
  unfold mbind, M_bind, mret, M_ret, assert, fault, uninit_block, uninit_ptr
    in *.

(** A loop leaves the function only with a value its body produced. *)
Lemma for_int_return {St R : Type} (P : R -> Prop)
    (body : Z -> St -> M (step St R)) :
  (forall i s m r m', body i s m = Ret (Return r) m' -> P r) ->
  forall n i s m r m', for_int n i body s m = Ret (Return r) m' -> P r.
Proof.
  intros Hbody n; induction n as [|n IH]; intros i s m r m' H; simpl in H.
  - munfold. discriminate.
  - destruct (INT_MAX <? i); [discriminate|].
    munfold. destruct (body i s m) as [[s'|v] m1| |] eqn:Hb; try discriminate.
    + eapply IH; eassumption.
    + inversion H; subst. eapply Hbody; eassumption.
Qed.

(** Hoare-style rule for a loop whose body never leaves the function. *)
Lemma for_int_invariant {St R : Type} (Inv : Z -> St -> Machine -> Prop)
    (body : Z -> St -> M (step St R)) (n : nat) :
  forall (i : Z) (s : St) (m : Machine),
  i + Z.of_nat n <= INT_MAX + 1 ->
  Inv i s m ->
  (forall k s m, i <= k < i + Z.of_nat n -> Inv k s m ->
     exists s' m', body k s m = Ret (Continue s') m' /\ Inv (k + 1) s' m') ->
  exists s' m',
    for_int n i body s m = Ret (Continue s') m'
    /\ Inv (i + Z.of_nat n) s' m'.
Proof.
  induction n as [|n IH]; intros i s m Hmax Hinv Hbody.
  - exists s, m. split; [reflexivity|].
    replace (i + Z.of_nat 0) with i by lia. exact Hinv.
  - simpl for_int.
    destruct (Z.ltb_spec INT_MAX i) as [Hlt|_]; [lia|].
    destruct (Hbody i s m ltac:(lia) Hinv) as (s1 & m1 & Hb & Hinv1).
    destruct (IH (i + 1) s1 m1 ltac:(lia) Hinv1) as (s2 & m2 & Hl & Hinv2).
    { intros k s' m' Hk. apply Hbody. lia. }
    exists s2, m2. munfold. rewrite Hb. split; [exact Hl|].
    replace (i + Z.of_nat (S n)) with (i + 1 + Z.of_nat n) by lia.
    exact Hinv2.
Qed.

Lemma forallb_seqZ (f : Z -> bool) (lo len : Z) :
  forallb f (seqZ lo len) = true ->
  forall k, lo <= k < lo + len -> f k = true.
Proof.
  intros H k Hk. rewrite forallb_forall in H. apply H.
  apply list_elem_of_In, elem_of_seqZ. exact Hk.
Qed.

Lemma keeps_marks_refl a : keeps_marks a a.
Proof. split; auto. Qed.

Lemma keeps_marks_trans a b c :
  keeps_marks a b -> keeps_marks b c -> keeps_marks a c.
Proof. intros [L1 H1] [L2 H2]. split; [congruence|auto]. Qed.

Lemma keeps_marks_insert (a : list bool) (i : nat) :
  keeps_marks a (<[i := true]> a).
Proof.
  split; [apply length_insert|].
  intros idx H. destruct (decide (i = idx)) as [->|Hne].
  - apply list_lookup_insert_eq. eapply lookup_lt_Some; eassumption.
  - rewrite list_lookup_insert_ne by assumption. exact H.
Qed.

(** *** The block device *)

Lemma sanity_check_false_read disk block data m :
  disk_sanity_check disk block data = false ->
  disk_read disk block data m = Ret (DISK_FAILURE, data) m.
Proof. intros H. unfold disk_read. rewrite H. reflexivity. Qed.

Lemma sanity_check_false_write disk block data m :
  disk_sanity_check disk block data = false ->
  disk_write disk block data m = Ret DISK_FAILURE m.
Proof. intros H. unfold disk_write. rewrite H. reflexivity. Qed.

Lemma sanity_check_true d i blk :
  0 <= fd d -> i < blocks d ->
  disk_sanity_check (Some d) i (Some blk) = true.
Proof.
  intros Hfd Hi. unfold disk_sanity_check.
  destruct (Z.ltb_spec (fd d) 0); [lia|].
  destruct (Z.leb_spec (blocks d) i); [lia|reflexivity].
Qed.

Lemma sys_lseek_block i :
  0 <= i < 2 ^ 51 -> sys_lseek (i * BLOCK_SIZE) = i * BLOCK_SIZE.
Proof.
  intros Hi. unfold sys_lseek, to_off_t, BLOCK_SIZE.
  rewrite Z.mod_small by lia.
  destruct (Z.ltb_spec (i * 4096) (2 ^ 63)); [|lia].
  destruct (Z.ltb_spec (i * 4096) 0); [lia|reflexivity].
Qed.

(** A read of a block that the device and the image both have. *)
Lemma disk_read_blk_ok d i blk b m :
  0 <= fd d -> 0 <= i < blocks d -> i < 2 ^ 51 ->
  file m !! Z.to_nat i = Some b ->
  disk_read_blk (Some d) i blk m
  = Ret (BLOCK_SIZE, b) (log (io_read (i * BLOCK_SIZE)) m).
Proof.
  intros Hfd Hi Hi' Hb. unfold disk_read_blk, disk_read. munfold.
  rewrite sanity_check_true by lia.
  rewrite sys_lseek_block by lia.
  destruct (Z.eqb_spec (i * BLOCK_SIZE) (-1)) as [E|_];
    [unfold BLOCK_SIZE in E; lia|].
  unfold sys_read. simpl default.
  rewrite Z.div_mul by (unfold BLOCK_SIZE; lia).
  simpl. rewrite Hb. reflexivity.
Qed.

(** C9. [disk_read] and [disk_write] return [DISK_FAILURE] and leave the
    machine as it was (image and transfer log untouched, the buffer as
    passed) whenever the handle is null, its descriptor is negative, the
    block index is at or beyond the device's block count, or the buffer
    is null. *)
Theorem disk_rejects_without_io
    (disk : option Disk) (block : Z) (data : option Block) (m : Machine) :
  disk = None
  \/ (exists d, disk = Some d /\ (fd d < 0 \/ blocks d <= block))
  \/ data = None ->
  disk_read disk block data m = Ret (DISK_FAILURE, data) m
  /\ disk_write disk block data m = Ret DISK_FAILURE m.
Proof.
  intros H.
  assert (Hs : disk_sanity_check disk block data = false).
  { unfold disk_sanity_check.
    destruct H as [-> | [(d & -> & Hd) | ->]]; [reflexivity| |].
    - destruct (Z.ltb_spec (fd d) 0); [reflexivity|].
      destruct (Z.leb_spec (blocks d) block); [reflexivity|lia].
    - destruct disk as [d|]; [|reflexivity].
      destruct (fd d <? 0); [reflexivity|].
      destruct (blocks d <=? block); reflexivity. }
  split;
    [apply sanity_check_false_read | apply sanity_check_false_write];
    exact Hs.
Qed.

Lemma disk_rejects_without_io_witness :
  disk_read (Some Fixture.disk20) 20 (Some zero_block) Fixture.blank
    = Ret (DISK_FAILURE, Some zero_block) Fixture.blank
  /\ disk_write (Some Fixture.disk20) 20 (Some zero_block) Fixture.blank
    = Ret DISK_FAILURE Fixture.blank.
Proof.
  apply (disk_rejects_without_io (Some Fixture.disk20) 20 (Some zero_block)
           Fixture.blank).
  right; left. exists Fixture.disk20. split; [reflexivity|].
  right. simpl. lia.
Defined.

(** *** The inode pointer of [fs_load_inode] *)

(** C10. Whenever a call [fs_load_inode(fs, n, node)] returns, the
    caller's [node] is what it was before the call (and was [NULL], by
    the assertion).  When the call returns true the loaded inode sits
    behind the pointer [p] that only the function's own copy received:
    [p] differs from the caller's pointer, and the caller's pointer
    leads to no object.  Every caller goes on with its original
    pointer: [fs_remove] runs its remaining part on it and so
    dereferences [NULL], [fs_stat] (whose local starts as the
    indeterminate [stack_ptr]) dereferences [NULL] as well, and
    [fs_read] returns -1 without looking at the loaded inode. *)
Theorem load_inode_keeps_caller_pointer
    (fs : FileSystem) (n : Z) (node : ptr) (m : Machine)
    (b : bool) (p : ptr) (m' : Machine) :
  fs_load_inode fs n node m = Ret (b, p) m' ->
  node = NULL
  /\ (b = true ->
      p <> node
      /\ (exists ino, deref p m' = Ret ino m' /\ valid ino <> 0)
      /\ deref node m' = Fault)
  /\ fs_remove fs n m
     = (if b then fs_remove_loaded fs n node m' else Ret (false, fs) m')
  /\ (b = true -> fs_remove fs n m = Fault)
  /\ (stack_ptr m = node ->
      fs_stat fs n m = (if b then Fault else Ret (-1) m')
      /\ forall data len off,
           fs_read fs n data len off m = Ret (-1, data) m').
Proof.
  intros H.
  assert (Hnode : node = NULL).
  { unfold fs_load_inode in H. munfold.
    destruct (bool_decide (disk fs ≠ None)); [|discriminate].
    case_bool_decide; [assumption|discriminate]. }
  subst node.
  split; [reflexivity|].
  split.
  { intros ->. unfold fs_load_inode in H. munfold.
    destruct (bool_decide (disk fs ≠ None)); [|discriminate].
    simpl in H.
    destruct (disk_read_blk _ _ _ _) as [[r blk] m1| |]; [|discriminate..].
    destruct (r =? DISK_FAILURE); [discriminate|].
    destruct (Z.eqb_spec
      (word blk (8 * (n - INODES_PER_BLOCK * (n / INODES_PER_BLOCK)))) 0)
      as [|Hv]; [discriminate|].
    inversion H; subst; clear H.
    split; [discriminate|]. split; [|reflexivity].
    exists (block_inode blk (n - INODES_PER_BLOCK * (n / INODES_PER_BLOCK))).
    split; [|exact Hv].
    unfold deref; simpl. rewrite lookup_app_r by lia.
    rewrite Nat.sub_diag. reflexivity. }
  assert (Hrm : fs_remove fs n m
     = (if b then fs_remove_loaded fs n NULL m' else Ret (false, fs) m')).
  { unfold fs_remove. munfold. rewrite H. destruct b; reflexivity. }
  split; [exact Hrm|].
  split.
  { intros ->. rewrite Hrm. reflexivity. }
  intros Hs. split.
  - unfold fs_stat. munfold. rewrite Hs, H. destruct b; reflexivity.
  - intros data len off. unfold fs_read. munfold. rewrite Hs, H.
    destruct b; reflexivity.
Qed.

Lemma load_inode_keeps_caller_pointer_witness :
  fs_load_inode (Fixture.fs20 None) 128 NULL Fixture.populated
    = Ret (true, Some 0%nat) Fixture.loaded128
  /\ fs_remove (Fixture.fs20 None) 128 Fixture.populated = Fault
  /\ fs_stat (Fixture.fs20 None) 128 Fixture.populated = Fault.
Proof.
  assert (H : fs_load_inode (Fixture.fs20 None) 128 NULL Fixture.populated
              = Ret (true, Some 0%nat) Fixture.loaded128)
    by (vm_compute; reflexivity).
  split; [exact H|].
  destruct (load_inode_keeps_caller_pointer _ _ _ _ _ _ _ H)
    as (_ & _ & _ & Hrm & Hst).
  split; [exact (Hrm eq_refl)|].
  exact (proj1 (Hst eq_refl)).
Defined.

(** ** Return values of [fs_format] and [fs_mount] *)

Lemma fs_format_returns_false fs disk m :
  match fs_format fs disk m with Ret b _ => b = false | _ => True end.
Proof.
  unfold fs_format. munfold.
  destruct (bool_decide (disk ≠ None)); [|exact I].
  destruct (disk_write_blk _ _ _ _) as [w m1| |]; [|exact I..].
  destruct (w =? DISK_FAILURE); [reflexivity|].
  match goal with
  | |- context [for_int ?n ?i ?b ?s ?m] =>
      destruct (for_int n i b s m) as [[s'|v] m2| |] eqn:Hl
  end; [reflexivity| |exact I..].
  simpl. revert Hl. apply (for_int_return (fun r => r = false)). clear.
  intros i s m3 r m4.
  destruct (disk_write_blk _ _ _ _) as [w' m5| |]; [|discriminate..].
  destruct (w' =? DISK_FAILURE); intros H; inversion H; reflexivity.
Qed.

Lemma fs_mount_returns_false fs disk m :
  match fs_mount fs disk m with Ret (b, _) _ => b = false | _ => True end.
Proof.
  unfold fs_mount. munfold.
  destruct (bool_decide (disk ≠ None)); [|exact I].
  destruct (disk_read_blk _ _ _ _) as [[n blk] m1| |]; [|exact I..].
  destruct (n =? DISK_FAILURE); [reflexivity|].
  destruct (negb _); [reflexivity|].
  destruct (fs_initialize_free_block_bitmap _ _); [reflexivity|exact I..].
Qed.

(** C7. [fs_format] and [fs_mount] do not follow the true-on-success
    convention: neither ever returns true.  On a blank 20-block device
    [fs_format] performs its three writes (superblock and two inode
    blocks), all of which succeed, and returns false; [fs_mount] on the
    formatted image reads block 0, finds the magic number, builds the
    bitmap, and returns false. *)
Theorem format_and_mount_report_failure :
  (forall fs disk m,
     match fs_format fs disk m with Ret b _ => b = false | _ => True end)
  /\ (forall fs disk m,
     match fs_mount fs disk m with Ret (b, _) _ => b = false | _ => True end)
  /\ fs_format Fixture.fs0 (Some Fixture.disk20) Fixture.blank
     = Ret false
         {| file := Fixture.image0;
            trace := [io_write 0; io_write 4096; io_write 8192];
            heap := []; stack_block := zero_block; stack_ptr := NULL |}
  /\ fs_mount Fixture.fs0 (Some Fixture.disk20)
       (Fixture.machine_of Fixture.image0)
     = Ret (false, Fixture.fs20 (Some (replicate 18 false)))
         {| file := Fixture.image0;
            trace := [io_read 0; io_read 4096; io_read 8192];
            heap := []; stack_block := zero_block; stack_ptr := NULL |}.
Proof.
  split; [exact fs_format_returns_false|].
  split; [exact fs_mount_returns_false|].
  split; vm_compute; reflexivity.
Qed.

(** ** Reading and writing files *)

Lemma fs_read_returns_error fs n data len off m :
  match fs_read fs n data len off m with
  | Ret (r, data') _ => r = -1 /\ data' = data
  | _ => True
  end.
Proof.
  unfold fs_read. munfold.
  destruct (fs_load_inode _ _ _ _) as [[[] p] m1| |]; simpl; auto.
Qed.

(** C1. The round trip does not hold: [fs_write] returns -1 for every
    call and leaves the machine as it was, and [fs_read], when it
    returns at all, returns -1 with the buffer untouched.  On the
    mounted three-file image, writing the five bytes of "hello" to the
    valid inode 128 at offset 0 returns -1 instead of 5, and reading
    five bytes back returns -1 with the buffer still all zeros. *)
Theorem write_then_read_returns_error :
  (forall fs n s len off m, fs_write fs n s len off m = Ret (-1) m)
  /\ (forall fs n buf len off m,
        match fs_read fs n buf len off m with
        | Ret (r, buf') _ => r = -1 /\ buf' = buf
        | _ => True
        end)
  /\ fs_mount Fixture.fs0 (Some Fixture.disk20) Fixture.populated
     = Ret (false, Fixture.mounted3)
         {| file := Fixture.image3;
            trace := [io_read 0; io_read 4096; io_read 8192];
            heap := []; stack_block := zero_block; stack_ptr := NULL |}
  /\ fs_write Fixture.mounted3 128 Fixture.hello 5 0 Fixture.populated
     = Ret (-1) Fixture.populated
  /\ fs_read Fixture.mounted3 128 Fixture.zeros5 5 0 Fixture.populated
     = Ret (-1, Fixture.zeros5) Fixture.loaded128.
Proof.
  split; [reflexivity|].
  split; [exact fs_read_returns_error|].
  repeat split; vm_compute; reflexivity.
Qed.

(** C6. [fs_read] never returns a byte count: whenever it returns, the
    value is -1 and the buffer is untouched.  Inode 128 of the
    three-file image loads as a valid inode of size 5; reading 3 bytes
    at offset 0 returns -1 instead of 3, and reading at offset 5, the
    size, returns -1 instead of 0. *)
Theorem read_returns_error_for_valid_inode :
  (forall fs n buf len off m,
        match fs_read fs n buf len off m with
        | Ret (r, buf') _ => r = -1 /\ buf' = buf
        | _ => True
        end)
  /\ fs_load_inode Fixture.mounted3 128 NULL Fixture.populated
     = Ret (true, Some 0%nat) Fixture.loaded128
  /\ deref (Some 0%nat) Fixture.loaded128
     = Ret Fixture.ino0 Fixture.loaded128
  /\ size Fixture.ino0 = 5
  /\ fs_read Fixture.mounted3 128 Fixture.zeros5 3 0 Fixture.populated
     = Ret (-1, Fixture.zeros5) Fixture.loaded128
  /\ fs_read Fixture.mounted3 128 Fixture.zeros5 3 5 Fixture.populated
     = Ret (-1, Fixture.zeros5) Fixture.loaded128.
Proof.
  split; [exact fs_read_returns_error|].
  repeat split; vm_compute; reflexivity.
Qed.

(** ** Removing an inode *)

Lemma fs_remove_returns_false fs n m :
  match fs_remove fs n m with Ret (b, _) _ => b = false | _ => True end.
Proof.
  unfold fs_remove. munfold.
  destruct (fs_load_inode _ _ _ _) as [[[] p] m1| |]; simpl; auto.
Qed.

(** C3. [fs_remove] never succeeds: whenever it returns, it returns
    false.  For inode 128 of the three-file image, which loads as a
    valid inode, it dereferences the null pointer that [fs_load_inode]
    left in its local.  Run on its own with a pointer to the object of
    inode 1 (direct blocks 7, 8, 10, 11, 12, indirect block 13 with
    entries 14 and 15), the rest of the function clears the bits at the
    indices 7, 8, 10, 11, 12, 14 and 15 of the array, where the mount
    had put the bits of these blocks at the indices 4, 5, 7, 8, 9: the
    bits of blocks 7, 8 and 12 stay set, and no bit is cleared for the
    indirect block 13. *)
Theorem remove_of_valid_inode_faults :
  (forall fs n m,
     match fs_remove fs n m with Ret (b, _) _ => b = false | _ => True end)
  /\ fs_load_inode Fixture.mounted3 128 NULL Fixture.populated
     = Ret (true, Some 0%nat) Fixture.loaded128
  /\ fs_remove Fixture.mounted3 128 Fixture.populated = Fault
  /\ (exists m',
        fs_remove_loaded Fixture.mounted3 129 (Some 0%nat) Fixture.holding1
        = Ret (true, Fixture.fs20 (Some
            [false; false; false; true; true; true; false; false; false;
             true; false; false; false; false; false; false; true; false]))
            m'
        /\ trace m' = [io_read 53248; io_read 4096; io_write 4096]).
Proof.
  split; [exact fs_remove_returns_false|].
  split; [vm_compute; reflexivity|].
  split; [vm_compute; reflexivity|].
  eexists. split; vm_compute; reflexivity.
Qed.

(** ** Creating an inode *)

(** [fs_create] gives up as soon as the first inode block is read. *)
Lemma fs_create_after_read fs d b m :
  disk fs = Some d -> 0 <= fd d -> 1 < blocks d ->
  1 <= inode_blocks (meta_data fs) ->
  file m !! 1%nat = Some b ->
  fs_create fs m = Ret (-1) (log (io_read BLOCK_SIZE) m).
Proof.
  intros Hd Hfd Hblk Hib Hb. unfold fs_create. munfold. rewrite Hd. simpl.
  destruct (Z.to_nat (inode_blocks (meta_data fs))) as [|k] eqn:Hk; [lia|].
  simpl. munfold.
  rewrite (disk_read_blk_ok d 1 _ b) by (assumption || lia).
  reflexivity.
Qed.

(** C4. On a freshly formatted and mounted 20-block device every slot
    of the inode table has [valid = 0], slot 0 of block 1 first among
    them; [fs_create] reads block 1, takes the successful read for a
    failure, and returns -1 without scanning a slot or writing a
    block. *)
Theorem create_rejects_readable_table :
  valid (block_inode (default zero_block (Fixture.image0 !! 1%nat)) 0) = 0
  /\ fs_create (Fixture.fs20 (Some (replicate 18 false)))
       (Fixture.machine_of Fixture.image0)
     = Ret (-1)
         {| file := Fixture.image0; trace := [io_read 4096]; heap := [];
            stack_block := zero_block; stack_ptr := NULL |}.
Proof. split; vm_compute; reflexivity. Qed.

(** ** Addressing the inode table *)

(** [fs_load_inode] of [n] transfers the block of index [n / 128], and
    takes the slot [n mod 128] of it. *)
Lemma fs_load_inode_reads fs d n b m :
  disk fs = Some d -> 0 <= fd d ->
  0 <= n -> n / INODES_PER_BLOCK < blocks d -> n / INODES_PER_BLOCK < 2 ^ 51 ->
  file m !! Z.to_nat (n / INODES_PER_BLOCK) = Some b ->
  let ino := block_inode b (n mod INODES_PER_BLOCK) in
  let m' := log (io_read (n / INODES_PER_BLOCK * BLOCK_SIZE)) m in
  fs_load_inode fs n NULL m
  = if valid ino =? 0 then Ret (false, NULL) m'
    else Ret (true, Some (length (heap m))) (set_heap (heap m ++ [Some ino]) m').
Proof.
  intros Hd Hfd Hn Hblk Hsmall Hb ino m'.
  assert (Hdiv : 0 <= n / INODES_PER_BLOCK)
    by (apply Z.div_pos; unfold INODES_PER_BLOCK; lia).
  unfold fs_load_inode. munfold. rewrite Hd. simpl.
  rewrite (disk_read_blk_ok d _ _ b) by (assumption || lia).
  change (BLOCK_SIZE =? DISK_FAILURE) with false. cbv iota.
  replace (n - INODES_PER_BLOCK * (n / INODES_PER_BLOCK))
    with (n mod INODES_PER_BLOCK)
    by (rewrite Z.mod_eq by (unfold INODES_PER_BLOCK; lia); reflexivity).
  simpl. destruct (word b _ =? 0); reflexivity.
Qed.

(** C2. [fs_load_inode] and [fs_save_inode] address block
    [n / INODES_PER_BLOCK], not [1 + n / INODES_PER_BLOCK].  For inode
    number 0 [fs_load_inode] reads byte 0, the superblock, and returns
    its first eight words as a valid inode; for inode number 129 it
    reads block 1 where the layout puts that inode in block 2, slot 1.
    [fs_save_inode] of inode number 0 reads and writes block 0 and
    overwrites the superblock with the inode. *)
Theorem inode_access_uses_block_n_div_128 :
  fs_load_inode Fixture.mounted3 0 NULL Fixture.populated
    = Ret (true, Some 0%nat)
        {| file := Fixture.image3; trace := [io_read 0];
           heap := [Some {| valid := MAGIC_NUMBER; size := 20;
                            direct := [2; 256; 0; 0; 0]; indirect := 0 |}];
           stack_block := zero_block; stack_ptr := NULL |}
  /\ fs_load_inode Fixture.mounted3 129 NULL Fixture.populated
    = Ret (true, Some 0%nat)
        {| file := Fixture.image3; trace := [io_read 4096];
           heap := [Some Fixture.ino1];
           stack_block := zero_block; stack_ptr := NULL |}
  /\ (exists m',
        fs_save_inode Fixture.mounted3 0 (Some 0%nat)
          {| file := Fixture.image3; trace := []; heap := [Some zero_inode];
             stack_block := zero_block; stack_ptr := NULL |}
        = Ret true m'
        /\ trace m' = [io_read 0; io_write 0]
        /\ block_super <$> file m' !! 0%nat = Some (mkSuperBlock 0 0 0 0)
        /\ drop 1 (file m') = drop 1 Fixture.image3).
Proof.
  split; [vm_compute; reflexivity|].
  split; [vm_compute; reflexivity|].
  eexists. repeat split; vm_compute; reflexivity.
Qed.

(** ** Inode numbers out of range *)

(** C8, as stated, fails: inode number 256 is not below the inode count
    256 of the three-file image, and [fs_load_inode] reads block 2 and
    returns true. *)
Lemma load_inode_accepts_beyond_inode_count :
  ~ (forall (fs : FileSystem) (n : Z) (m : Machine),
       inodes (meta_data fs) <= n ->
       fs_load_inode fs n NULL m = Ret (false, NULL) m).
Proof.
  intros H.
  assert (Hn : inodes (meta_data Fixture.mounted3) <= 256) by (simpl; lia).
  specialize (H Fixture.mounted3 256 Fixture.populated Hn).
  vm_compute in H. discriminate H.
Qed.

(** C8, amended. [fs_load_inode] returns false without any transfer,
    leaving the machine as it was, for every inode number [n] with
    [n / INODES_PER_BLOCK] at or beyond the block count of the device:
    the range check of the block device is the only one there is. *)
Theorem load_inode_rejects_beyond_device
    (fs : FileSystem) (d : Disk) (n : Z) (m : Machine) :
  disk fs = Some d ->
  blocks d <= n / INODES_PER_BLOCK ->
  fs_load_inode fs n NULL m = Ret (false, NULL) m.
Proof.
  intros Hd Hn. unfold fs_load_inode, disk_read_blk. munfold.
  rewrite Hd. simpl.
  rewrite sanity_check_false_read.
  - reflexivity.
  - unfold disk_sanity_check. destruct (fd d <? 0); [reflexivity|].
    destruct (Z.leb_spec (blocks d) (n / INODES_PER_BLOCK)); [reflexivity|lia].
Qed.

Lemma load_inode_rejects_beyond_device_witness :
  fs_load_inode Fixture.mounted3 2560 NULL Fixture.populated
  = Ret (false, NULL) Fixture.populated.
Proof.
  apply (load_inode_rejects_beyond_device
           Fixture.mounted3 Fixture.disk20 2560 Fixture.populated).
  - reflexivity.
  - vm_compute. discriminate.
Defined.

(** ** The bitmap built at mount *)

Section Bitmap.

Variable fs : FileSystem.
Local Abbreviation sb := (meta_data fs).
Hypothesis Hib : 0 <= inode_blocks sb < sb_blocks sb.
Hypothesis Hnb : sb_blocks sb <= INT_MAX.

Lemma to_int_index p :
  inode_blocks sb < p < sb_blocks sb ->
  to_int (p - 1 - inode_blocks sb) = p - 1 - inode_blocks sb.
Proof.
  intros Hp. unfold to_int, u32, INT_MAX in *.
  rewrite Z.mod_small by lia.
  destruct (Z.ltb_spec (p - 1 - inode_blocks sb) (2 ^ 31)); [reflexivity|lia].
Qed.

(** The loop over the direct pointers of one inode. *)
Lemma mark_direct_spec (ino : Inode) (a0 : list bool) (m : Machine) :
  length a0 = Z.to_nat (sb_blocks sb - inode_blocks sb) ->
  inode_pointers_ok sb ino = true ->
  exists a,
    mark_direct fs ino a0 m = Ret (Continue a) m
    /\ keeps_marks a0 a
    /\ forall k, 0 <= k < POINTERS_PER_INODE -> direct_at ino k <> 0 ->
         a !! bit_index sb (direct_at ino k) = Some true.
Proof.
  intros Hlen Hok.
  pose (Inv := fun (k : Z) (a : list bool) (m' : Machine) =>
    m' = m /\ keeps_marks a0 a
    /\ forall k', 0 <= k' < k -> direct_at ino k' <> 0 ->
         a !! bit_index sb (direct_at ino k') = Some true).
  destruct (for_int_invariant (R := unit) Inv
    (fun p a =>
       if negb (direct_at ino p =? 0) then
         let idx := to_int (direct_at ino p - 1 - inode_blocks (meta_data fs)) in
         a' ← store_bit a idx true;
         mret (Continue a')
       else mret (Continue a))
    (Z.to_nat POINTERS_PER_INODE) 0 a0 m) as (a & m' & Hrun & Hm & Hk & Hmarks).
  - unfold INT_MAX, POINTERS_PER_INODE. simpl. lia.
  - split; [reflexivity|]. split; [apply keeps_marks_refl|]. intros; lia.
  - intros k a m1 Hk (-> & Hkeep & Hmarks).
    assert (Hk' : 0 <= k < 0 + POINTERS_PER_INODE)
      by (unfold POINTERS_PER_INODE in *; simpl in Hk; lia).
    pose proof (forallb_seqZ _ _ _ Hok k Hk') as Hp. simpl in Hp.
    destruct (Z.eqb_spec (direct_at ino k) 0) as [Hz|Hnz]; simpl.
    + exists a, m. split; [reflexivity|]. split; [reflexivity|].
      split; [exact Hkeep|]. intros k' Hk'' Hnz'.
      apply Hmarks; [|assumption].
      destruct (decide (k' = k)) as [->|]; [contradiction|lia].
    + unfold pointer_in_data_region in Hp.
      apply andb_true_iff in Hp as [Hlo%Z.ltb_lt Hhi%Z.ltb_lt].
      rewrite to_int_index by lia.
      exists (<[bit_index sb (direct_at ino k) := true]> a), m.
      destruct Hkeep as [Hl Hkeep].
      assert (Hin : (bit_index sb (direct_at ino k) < length a)%nat)
        by (unfold bit_index; lia).
      split.
      { unfold store_bit. munfold.
        destruct (Z.leb_spec 0 (direct_at ino k - 1 - inode_blocks sb)); [|lia].
        destruct (Z.ltb_spec (direct_at ino k - 1 - inode_blocks sb)
                    (Z.of_nat (length a))); [|lia].
        reflexivity. }
      split; [reflexivity|].
      split.
      { eapply keeps_marks_trans; [split; eassumption|].
        apply keeps_marks_insert. }
      intros k' Hk'' Hnz'.
      destruct (decide (k' = k)) as [->|Hne].
      * apply list_lookup_insert_eq. exact Hin.
      * apply keeps_marks_insert. apply Hmarks; [lia|assumption].
  - subst m'. exists a. split; [exact Hrun|]. split; [exact Hk|].
    intros k Hk'. apply Hmarks.
    unfold POINTERS_PER_INODE in *. simpl. lia.
Qed.

(** The loop over the inodes of one block. *)
Lemma mark_block_spec (blk : Block) (a0 : list bool) (m : Machine) :
  length a0 = Z.to_nat (sb_blocks sb - inode_blocks sb) ->
  (forall j, 0 <= j < INODES_PER_BLOCK ->
     valid (block_inode blk j) <> 0 ->
     inode_pointers_ok sb (block_inode blk j) = true) ->
  exists a,
    mark_block fs blk a0 m = Ret (Continue a) m
    /\ keeps_marks a0 a
    /\ forall j k, 0 <= j < INODES_PER_BLOCK -> 0 <= k < POINTERS_PER_INODE ->
         valid (block_inode blk j) <> 0 ->
         direct_at (block_inode blk j) k <> 0 ->
         a !! bit_index sb (direct_at (block_inode blk j) k) = Some true.
Proof.
  intros Hlen Hok.
  pose (Inv := fun (j : Z) (a : list bool) (m' : Machine) =>
    m' = m /\ keeps_marks a0 a
    /\ forall j' k, 0 <= j' < j -> 0 <= k < POINTERS_PER_INODE ->
         valid (block_inode blk j') <> 0 ->
         direct_at (block_inode blk j') k <> 0 ->
         a !! bit_index sb (direct_at (block_inode blk j') k) = Some true).
  destruct (for_int_invariant (R := unit) Inv
    (fun j a =>
       let ino := block_inode blk j in
       if valid ino =? 0 then mret (Continue a)
       else mark_direct fs ino a)
    (Z.to_nat INODES_PER_BLOCK) 0 a0 m) as (a & m' & Hrun & Hm & Hk & Hmarks).
  - unfold INT_MAX, INODES_PER_BLOCK. simpl. lia.
  - split; [reflexivity|]. split; [apply keeps_marks_refl|]. intros; lia.
  - intros j a m1 Hj (-> & Hkeep & Hmarks).
    assert (Hj' : 0 <= j < INODES_PER_BLOCK)
      by (unfold INODES_PER_BLOCK in *; simpl in Hj; lia).
    cbv zeta.
    destruct (Z.eqb_spec (valid (block_inode blk j)) 0) as [Hz|Hnz].
    + exists a, m. split; [reflexivity|]. split; [reflexivity|].
      split; [exact Hkeep|]. intros j' k Hj'' Hk Hv Hd.
      apply Hmarks; try assumption.
      destruct (decide (j' = j)) as [->|]; [contradiction|lia].
    + destruct (mark_direct_spec (block_inode blk j) a m)
        as (a' & Hrun & Hkeep' & Hmarks').
      { destruct Hkeep as [-> _]. exact Hlen. }
      { apply Hok; assumption. }
      exists a', m. split; [exact Hrun|]. split; [reflexivity|].
      split; [eapply keeps_marks_trans; eassumption|].
      intros j' k Hj'' Hk Hv Hd.
      destruct (decide (j' = j)) as [->|Hne].
      * apply Hmarks'; assumption.
      * apply Hkeep'. apply Hmarks; try assumption. lia.
  - subst m'. exists a. split; [exact Hrun|]. split; [exact Hk|].
    intros j k Hj. apply Hmarks.
    unfold INODES_PER_BLOCK in *. simpl. lia.
Qed.

End Bitmap.

(** C5, as stated, fails.  On the three-file image the array that the
    mount builds has 18 entries for the 20 blocks of the device, so it
    cannot hold a set bit for each of the blocks 0, 1 and 2 next to one
    entry per block; read by block number, its entries 0, 1 and 2 are
    clear.  The valid inode 1 has 24577 bytes and the indirect block 13
    with the entries 14 and 15: none of the three has a set bit, at the
    index the mount uses no more than at its block number. *)
Lemma mount_bitmap_not_per_block :
  fs_mount Fixture.fs0 (Some Fixture.disk20) Fixture.populated
    = Ret (false, Fixture.mounted3)
        {| file := Fixture.image3;
           trace := [io_read 0; io_read 4096; io_read 8192];
           heap := []; stack_block := zero_block; stack_ptr := NULL |}
  /\ ~ (exists a,
          free_blocks Fixture.mounted3 = Some a
          /\ length a = Z.to_nat (sb_blocks (meta_data Fixture.mounted3))
          /\ forall b, 0 <= b <= inode_blocks (meta_data Fixture.mounted3) ->
               a !! Z.to_nat b = Some true)
  /\ map (fun b => Fixture.bitmap3 !! Z.to_nat b) [0; 1; 2]
     = [Some false; Some false; Some false]
  /\ block_inode (default zero_block (Fixture.image3 !! 1%nat)) 1
     = Fixture.ino1
  /\ BLOCK_SIZE * POINTERS_PER_INODE < size Fixture.ino1
  /\ map (fun b => Fixture.bitmap3 !! Z.to_nat b) [13; 14; 15]
     = [Some false; Some false; Some false]
  /\ map (fun b => Fixture.bitmap3 !! bit_index Fixture.super20 b)
       [13; 14; 15]
     = [Some false; Some false; Some false].
Proof.
  split; [vm_compute; reflexivity|].
  split.
  { intros (a & Ha & Hlen & _). inversion Ha; subst a.
    vm_compute in Hlen. discriminate Hlen. }
  repeat split; vm_compute; reflexivity.
Qed.

(** C5, amended.  On a device that holds the blocks its superblock
    counts, with an image that has them all, and an inode table whose
    assigned direct pointers lie in the data region,
    [fs_initialize_free_block_bitmap] returns with an array of
    [blocks - inode_blocks] entries attached to the handle, in which the
    entry [p - 1 - inode_blocks] is set for every non-zero direct
    pointer [p] of every valid inode of the inode blocks; the image is
    left as it was. *)
Theorem mount_bitmap_marks_direct_pointers
    (fs : FileSystem) (d : Disk) (m : Machine) :
  disk fs = Some d ->
  0 <= fd d ->
  0 <= inode_blocks (meta_data fs) < sb_blocks (meta_data fs) ->
  sb_blocks (meta_data fs) <= blocks d ->
  sb_blocks (meta_data fs) <= INT_MAX ->
  blocks d <= Z.of_nat (length (file m)) ->
  inode_table_ok (meta_data fs) (file m) = true ->
  exists a m',
    fs_initialize_free_block_bitmap fs m = Ret (set_free_blocks fs a) m'
    /\ file m' = file m
    /\ length a
       = Z.to_nat (sb_blocks (meta_data fs) - inode_blocks (meta_data fs))
    /\ forall i j k blk,
         1 <= i <= inode_blocks (meta_data fs) ->
         0 <= j < INODES_PER_BLOCK ->
         0 <= k < POINTERS_PER_INODE ->
         file m !! Z.to_nat i = Some blk ->
         valid (block_inode blk j) <> 0 ->
         direct_at (block_inode blk j) k <> 0 ->
         a !! bit_index (meta_data fs) (direct_at (block_inode blk j) k)
         = Some true.
Proof.
  intros Hd Hfd Hib Hnb Hmax Himg Hok.
  set (sb := meta_data fs) in *.
  set (a0 := replicate (Z.to_nat (sb_blocks sb - inode_blocks sb)) false).
  pose (Inv := fun (i : Z) (a : list bool) (m' : Machine) =>
    file m' = file m /\ keeps_marks a0 a
    /\ forall i' j k blk,
         1 <= i' < i -> 0 <= j < INODES_PER_BLOCK ->
         0 <= k < POINTERS_PER_INODE ->
         file m !! Z.to_nat i' = Some blk ->
         valid (block_inode blk j) <> 0 ->
         direct_at (block_inode blk j) k <> 0 ->
         a !! bit_index sb (direct_at (block_inode blk j) k) = Some true).
  destruct (for_int_invariant (R := unit) Inv
    (fun i a =>
       blk ← uninit_block;
       '(n, blk) ← disk_read_blk (disk fs) i blk;
       if n =? DISK_FAILURE then mret (Return ())
       else mark_block fs blk a)
    (Z.to_nat (inode_blocks sb)) 1 a0 m) as (a & m' & Hrun & Hf & Hk & Hmarks).
  - unfold INT_MAX in *. lia.
  - split; [reflexivity|]. split; [apply keeps_marks_refl|]. intros; lia.
  - intros i a m1 Hi (Hfile & Hkeep & Hmarks).
    assert (Hi' : 1 <= i <= inode_blocks sb) by lia.
    destruct (lookup_lt_is_Some_2 (file m) (Z.to_nat i) ltac:(lia))
      as [blk Hblk].
    munfold. rewrite Hd.
    rewrite (disk_read_blk_ok d i _ blk)
      by (try assumption; try (unfold INT_MAX in *; lia);
          rewrite Hfile; exact Hblk).
    change (BLOCK_SIZE =? DISK_FAILURE) with false. cbv iota.
    destruct (mark_block_spec fs Hib Hmax blk a
                (log (io_read (i * BLOCK_SIZE)) m1))
      as (a' & Hrun & Hkeep' & Hmarks').
    { destruct Hkeep as [-> _]. unfold a0. apply length_replicate. }
    { intros j Hj Hv.
      pose proof (forallb_seqZ _ _ _ Hok i ltac:(fold sb; lia)) as Hrow.
      cbv beta in Hrow.
      pose proof (forallb_seqZ _ _ _ Hrow j ltac:(lia)) as Hino.
      cbv beta zeta in Hino. rewrite Hblk in Hino.
      apply orb_true_iff in Hino as [Hz%Z.eqb_eq|Hino];
        [exfalso; apply Hv; exact Hz|].
      exact Hino. }
    exists a', (log (io_read (i * BLOCK_SIZE)) m1).
    split; [exact Hrun|]. split; [exact Hfile|].
    split; [eapply keeps_marks_trans; eassumption|].
    intros i' j k blk' Hi'' Hj Hk Hblk' Hv Hdir.
    destruct (decide (i' = i)) as [->|Hne].
    + assert (blk' = blk) as -> by congruence.
      apply Hmarks'; assumption.
    + apply Hkeep'. eapply Hmarks; try eassumption. lia.
  - exists a, m'. split.
    { unfold fs_initialize_free_block_bitmap. munfold.
      rewrite bool_decide_eq_true_2 by (rewrite Hd; discriminate).
      fold sb.
      replace (u32 (sb_blocks sb - inode_blocks sb))
        with (sb_blocks sb - inode_blocks sb)
        by (unfold u32, INT_MAX in *; rewrite Z.mod_small; lia).
      fold a0.
      match goal with
      | |- match ?X with _ => _ end = _ =>
          replace X with (@Ret (step (list bool) unit) (Continue a) m')
            by (symmetry; exact Hrun)
      end.
      reflexivity. }
    split; [exact Hf|].
    split.
    { destruct Hk as [-> _]. unfold a0. apply length_replicate. }
    intros i j k blk Hi. eapply Hmarks. lia.
Qed.

Lemma mount_bitmap_marks_direct_pointers_witness :
  exists a m',
    fs_initialize_free_block_bitmap (Fixture.fs20 None) Fixture.populated
    = Ret (set_free_blocks (Fixture.fs20 None) a) m'
    /\ file m' = file Fixture.populated
    /\ length a = Z.to_nat (20 - 2)
    /\ forall i j k blk,
         1 <= i <= 2 ->
         0 <= j < INODES_PER_BLOCK ->
         0 <= k < POINTERS_PER_INODE ->
         file Fixture.populated !! Z.to_nat i = Some blk ->
         valid (block_inode blk j) <> 0 ->
         direct_at (block_inode blk j) k <> 0 ->
         a !! bit_index Fixture.super20 (direct_at (block_inode blk j) k)
         = Some true.
Proof.
  apply (mount_bitmap_marks_direct_pointers
           (Fixture.fs20 None) Fixture.disk20 Fixture.populated).
  - reflexivity.
  - simpl; lia.
  - simpl; lia.
  - simpl; lia.
  - vm_compute; discriminate.
  - vm_compute; discriminate.
  - vm_compute; reflexivity.
Defined.

(** ** Further properties of the block device and the file system *)

(** The image after a write of [data] at block [i]. *)
Lemma written_lookup_eq (f : list Block) (i : nat) (data : Block) :
  (take i f ++ replicate (i - length f) zero_block ++ data :: drop (S i) f)
    !! i = Some data.
Proof.
  rewrite app_assoc. apply list_lookup_middle.
  rewrite length_app, length_take, length_replicate. lia.
Qed.

Lemma written_lookup_ne (f : list Block) (i j : nat) (data : Block) :
  j <> i -> (j < length f)%nat ->
  (take i f ++ replicate (i - length f) zero_block ++ data :: drop (S i) f)
    !! j = f !! j.
Proof.
  intros Hne Hj.
  destruct (decide (j < i)%nat) as [Hlt|Hge].
  - rewrite lookup_app_l by (rewrite length_take; lia).
    apply lookup_take_lt. exact Hlt.
  - assert (Hi : (i < length f)%nat) by lia.
    replace (i - length f)%nat with 0%nat by lia. simpl.
    rewrite <- insert_take_drop by exact Hi.
    apply list_lookup_insert_ne. lia.
Qed.

Lemma written_in_image (f : list Block) (i : nat) (data : Block) :
  (i < length f)%nat ->
  take i f ++ replicate (i - length f) zero_block ++ data :: drop (S i) f
  = <[i := data]> f.
Proof.
  intros Hi. replace (i - length f)%nat with 0%nat by lia. simpl.
  symmetry. apply insert_take_drop. exact Hi.
Qed.

Lemma disk_write_ok d i data m :
  0 <= fd d -> 0 <= i < blocks d -> blocks d <= 2 ^ 51 ->
  disk_write (Some d) i (Some data) m
  = Ret BLOCK_SIZE
      (log (io_write (i * BLOCK_SIZE))
         (set_file (take (Z.to_nat i) (file m)
                    ++ replicate (Z.to_nat i - length (file m)) zero_block
                    ++ data :: drop (S (Z.to_nat i)) (file m)) m)).
Proof.
  intros Hfd Hi Hmax. unfold disk_write. munfold.
  rewrite sanity_check_true by lia.
  rewrite sys_lseek_block by lia.
  destruct (Z.eqb_spec (i * BLOCK_SIZE) (-1)) as [E|_];
    [unfold BLOCK_SIZE in E; lia|].
  unfold sys_write. simpl.
  rewrite Z.div_mul by (unfold BLOCK_SIZE; lia). reflexivity.
Qed.

Lemma disk_read_ok d i buf b m :
  0 <= fd d -> 0 <= i < blocks d -> blocks d <= 2 ^ 51 ->
  file m !! Z.to_nat i = Some b ->
  disk_read (Some d) i (Some buf) m
  = Ret (BLOCK_SIZE, Some b) (log (io_read (i * BLOCK_SIZE)) m).
Proof.
  intros Hfd Hi Hmax Hb. unfold disk_read. munfold.
  rewrite sanity_check_true by lia.
  rewrite sys_lseek_block by lia.
  destruct (Z.eqb_spec (i * BLOCK_SIZE) (-1)) as [E|_];
    [unfold BLOCK_SIZE in E; lia|].
  unfold sys_read. simpl.
  rewrite Z.div_mul by (unfold BLOCK_SIZE; lia).
  rewrite Hb. reflexivity.
Qed.

(** X1. On a device with a valid descriptor, writing a block with an
    index below the block count succeeds with [BLOCK_SIZE], and reading
    the same index afterwards succeeds with [BLOCK_SIZE] and delivers
    the block written, also when the write lies past the end of the
    image. *)
Theorem disk_write_read_round_trip (d : Disk) (i : Z) (data buf : Block)
    (m : Machine) :
  0 <= fd d -> 0 <= i < blocks d -> blocks d <= 2 ^ 51 ->
  exists m1,
    disk_write (Some d) i (Some data) m = Ret BLOCK_SIZE m1
    /\ disk_read (Some d) i (Some buf) m1
       = Ret (BLOCK_SIZE, Some data) (log (io_read (i * BLOCK_SIZE)) m1).
Proof.
  intros Hfd Hi Hmax. eexists. split; [apply disk_write_ok; assumption|].
  apply disk_read_ok; try assumption.
  simpl. apply written_lookup_eq.
Qed.

Lemma disk_write_read_round_trip_witness :
  exists m1,
    disk_write (Some Fixture.disk20) 5 (Some (set_word 0 7 zero_block))
      Fixture.blank = Ret BLOCK_SIZE m1
    /\ disk_read (Some Fixture.disk20) 5 (Some zero_block) m1
       = Ret (BLOCK_SIZE, Some (set_word 0 7 zero_block))
           (log (io_read (5 * BLOCK_SIZE)) m1).
Proof.
  apply (disk_write_read_round_trip Fixture.disk20 5
           (set_word 0 7 zero_block) zero_block Fixture.blank);
    simpl; lia.
Defined.

(** X2. A successful [disk_write] of block [i] leaves every other block
    that the image held as it was, does not shorten the image, and does
    not touch the heap. *)
Theorem disk_write_keeps_other_blocks (d : Disk) (i : Z) (data : Block)
    (m : Machine) :
  0 <= fd d -> 0 <= i < blocks d -> blocks d <= 2 ^ 51 ->
  exists m1,
    disk_write (Some d) i (Some data) m = Ret BLOCK_SIZE m1
    /\ heap m1 = heap m
    /\ (length (file m) <= length (file m1))%nat
    /\ forall j b, j <> Z.to_nat i -> file m !! j = Some b ->
         file m1 !! j = Some b.
Proof.
  intros Hfd Hi Hmax. eexists. split; [apply disk_write_ok; assumption|].
  split; [reflexivity|]. split.
  - simpl. rewrite !length_app, length_take, length_replicate. simpl.
    rewrite length_drop. lia.
  - intros j b Hne Hb. simpl. rewrite written_lookup_ne; [exact Hb|exact Hne|].
    eapply lookup_lt_Some; eassumption.
Qed.

Lemma disk_write_keeps_other_blocks_witness :
  exists m1,
    disk_write (Some Fixture.disk20) 5 (Some zero_block) Fixture.populated
    = Ret BLOCK_SIZE m1
    /\ heap m1 = heap Fixture.populated
    /\ (length (file Fixture.populated) <= length (file m1))%nat
    /\ forall j b, j <> Z.to_nat 5 -> file Fixture.populated !! j = Some b ->
         file m1 !! j = Some b.
Proof.
  apply (disk_write_keeps_other_blocks Fixture.disk20 5 zero_block
           Fixture.populated);
    simpl; lia.
Defined.

Lemma length_set_word i v b : length (set_word i v b) = length b.
Proof. apply length_insert. Qed.

Lemma lookup_set_word i v b (p : nat) :
  set_word i v b !! p
  = if decide (Z.to_nat i = p /\ (p < length b)%nat) then Some v else b !! p.
Proof.
  unfold set_word. rewrite list_lookup_insert.
  destruct (decide (Z.to_nat i = p ∧ (Z.to_nat i < length b)%nat)) as [[? ?]|H];
    destruct (decide (Z.to_nat i = p ∧ (p < length b)%nat)) as [[? ?]|H'];
    try reflexivity; exfalso.
  - apply H'. split; [assumption|lia].
  - apply H. split; [assumption|lia].
Qed.

Lemma length_set_block_inode j ino b :
  length (set_block_inode j ino b) = length b.
Proof. unfold set_block_inode. rewrite !length_set_word. reflexivity. Qed.

Lemma lookup_set_block_inode_zero (j : nat) (b : Block) (p : nat) :
  set_block_inode (Z.of_nat j) zero_inode b !! p
  = if decide ((8 * j <= p < 8 * j + 8)%nat /\ (p < length b)%nat)
    then Some 0 else b !! p.
Proof.
  unfold set_block_inode.
  change (valid zero_inode) with 0. change (size zero_inode) with 0.
  change (indirect zero_inode) with 0.
  change (direct_at zero_inode 0) with 0. change (direct_at zero_inode 1) with 0.
  change (direct_at zero_inode 2) with 0. change (direct_at zero_inode 3) with 0.
  change (direct_at zero_inode 4) with 0.
  rewrite !lookup_set_word, !length_set_word.
  destruct (decide ((8 * j <= p < 8 * j + 8)%nat /\ (p < length b)%nat))
    as [[Hr Hl]|Hn].
  - repeat (case_decide; [reflexivity|]). exfalso. lia.
  - repeat (case_decide; [exfalso; lia|]). reflexivity.
Qed.

Lemma fill_inodes_prefix (n : nat) (b : Block) :
  length (foldl (fun b j => set_block_inode j zero_inode b) b
            (map Z.of_nat (seq 0 n))) = length b
  /\ forall p : nat,
       foldl (fun b j => set_block_inode j zero_inode b) b
         (map Z.of_nat (seq 0 n)) !! p
       = if decide ((p < 8 * n)%nat /\ (p < length b)%nat)
         then Some 0 else b !! p.
Proof.
  induction n as [|n [IHl IH]].
  - split; [reflexivity|]. intros p.
    destruct (decide _) as [[? ?]|?]; [lia|reflexivity].
  - rewrite seq_S, map_app. simpl (map _ [_]). rewrite foldl_snoc.
    split; [rewrite length_set_block_inode; exact IHl|].
    intros p. rewrite lookup_set_block_inode_zero, IHl, IH.
    repeat case_decide; try reflexivity; exfalso; lia.
Qed.

Lemma fill_inodes_zero (b : Block) :
  length b = Z.to_nat POINTERS_PER_BLOCK ->
  fill_inodes zero_inode b = zero_block.
Proof.
  intros Hlen. apply list_eq. intros p. unfold fill_inodes.
  rewrite (proj2 (fill_inodes_prefix _ b) p).
  unfold zero_block.
  change (Z.to_nat INODES_PER_BLOCK) with 128%nat.
  change (Z.to_nat POINTERS_PER_BLOCK) with 1024%nat in *.
  case_decide as H.
  - destruct (decide ((p < 1024)%nat)) as [Hp|]; [|lia].
    symmetry. apply lookup_replicate_2. exact Hp.
  - rewrite lookup_ge_None_2 by lia.
    symmetry. apply lookup_replicate_None. lia.
Qed.

Lemma block_super_set (sp : SuperBlock) (b : Block) :
  (4 <= length b)%nat -> block_super (set_block_super sp b) = sp.
Proof.
  intros Hlen. destruct sp as [mg nb ib ino].
  unfold block_super, set_block_super, word. simpl.
  rewrite !lookup_set_word, !length_set_word.
  repeat (case_decide; try (exfalso; lia)). reflexivity.
Qed.

Lemma fs_format_spec (fs : FileSystem) (d : Disk) (m : Machine) :
  0 <= fd d ->
  2 <= blocks d < 2 ^ 32 ->
  blocks d <= Z.of_nat (length (file m)) ->
  length (stack_block m) = Z.to_nat POINTERS_PER_BLOCK ->
  exists m',
    fs_format fs (Some d) m = Ret false m'
    /\ heap m' = heap m /\ stack_block m' = stack_block m
    /\ length (file m') = length (file m)
    /\ file m' !! 0%nat
       = Some (set_block_super
                 {| magic_number := MAGIC_NUMBER;
                    sb_blocks := blocks d;
                    inode_blocks := ceil_tenth (blocks d);
                    inodes := u32 (ceil_tenth (blocks d) * INODES_PER_BLOCK) |}
                 (stack_block m))
    /\ (forall i, 1 <= i <= ceil_tenth (blocks d) ->
          file m' !! Z.to_nat i = Some zero_block)
    /\ (forall i, ceil_tenth (blocks d) < i ->
          file m' !! Z.to_nat i = file m !! Z.to_nat i).
Proof.
  intros Hfd Hnb Himg Hstack.
  assert (Hib : 1 <= ceil_tenth (blocks d) < blocks d).
  { unfold ceil_tenth. split.
    - apply Z.div_le_lower_bound; lia.
    - apply Z.div_lt_upper_bound; lia. }
  assert (Hib' : ceil_tenth (blocks d) <= INT_MAX).
  { unfold ceil_tenth, INT_MAX. apply Z.div_le_upper_bound; lia. }
  set (ib := ceil_tenth (blocks d)) in *.
  set (sp := {| magic_number := MAGIC_NUMBER; sb_blocks := blocks d;
                inode_blocks := ib;
                inodes := u32 (ib * INODES_PER_BLOCK) |}).
  set (blk0 := set_block_super sp (stack_block m)).
  set (m0 := log (io_write (0 * BLOCK_SIZE))
               (set_file (<[0%nat := blk0]> (file m)) m)).
  pose (Inv := fun (i : Z) (_ : unit) (m' : Machine) =>
    (heap m' = heap m /\ stack_block m' = stack_block m)
    /\ length (file m') = length (file m)
    /\ file m' !! 0%nat = Some blk0
    /\ (forall i', 1 <= i' < i -> file m' !! Z.to_nat i' = Some zero_block)
    /\ (forall i', i <= i' -> file m' !! Z.to_nat i' = file m !! Z.to_nat i')).
  destruct (for_int_invariant (R := bool) Inv
    (fun i (_ : unit) =>
       w ← disk_write_blk (Some d) i (fill_inodes zero_inode blk0);
       if w =? DISK_FAILURE then mret (Return false)
       else mret (Continue ()))
    (Z.to_nat ib) 1 () m0) as (u & m' & Hrun & Hh & Hlen & H0 & Hz & Hrest).
  - unfold INT_MAX in *. lia.
  - unfold Inv, m0. simpl.
    split; [split; reflexivity|]. split; [apply length_insert|].
    split; [apply list_lookup_insert_eq; lia|].
    split; [intros; lia|].
    intros i' Hi'. apply list_lookup_insert_ne. lia.
  - intros k [] m1 Hk (Hh & Hlen & H0 & Hz & Hrest).
    unfold disk_write_blk. munfold.
    rewrite disk_write_ok by lia.
    rewrite written_in_image by lia.
    change (BLOCK_SIZE =? DISK_FAILURE) with false. cbv iota.
    eexists _, _. split; [reflexivity|].
    unfold Inv. simpl.
    split; [exact Hh|]. split; [rewrite length_insert; exact Hlen|].
    split; [rewrite list_lookup_insert_ne by lia; exact H0|].
    split.
    + intros i' Hi'. destruct (decide (i' = k)) as [->|Hne].
      * rewrite list_lookup_insert_eq by lia.
        rewrite fill_inodes_zero; [reflexivity|].
        unfold blk0, set_block_super. rewrite !length_set_word. exact Hstack.
      * rewrite list_lookup_insert_ne by lia. apply Hz. lia.
    + intros i' Hi'. rewrite list_lookup_insert_ne by lia. apply Hrest. lia.
  - exists m'. split.
    { unfold fs_format. munfold. simpl bool_decide. cbv iota.
      unfold disk_write_blk at 1.
      change (from_option blocks 0 (Some d)) with (blocks d).
      replace (u32 (ceil_tenth (blocks d))) with ib
        by (unfold u32; rewrite Z.mod_small; [reflexivity|fold ib; lia]).
      replace (u32 (blocks d)) with (blocks d)
        by (unfold u32; rewrite Z.mod_small; [reflexivity|lia]).
      fold sp. fold blk0.
      rewrite disk_write_ok by lia.
      rewrite written_in_image by (simpl; lia).
      change (BLOCK_SIZE =? DISK_FAILURE) with false. cbv iota.
      change (Z.to_nat 0) with 0%nat. fold m0. cbv beta.
      match goal with
      | |- match ?X with _ => _ end = _ =>
          replace X with (@Ret (step unit bool) (Continue u) m')
            by (symmetry; exact Hrun)
      end.
      reflexivity. }
    split; [exact (proj1 Hh)|]. split; [exact (proj2 Hh)|].
    split; [exact Hlen|].
    split; [exact H0|].
    split.
    { intros i Hi. apply Hz. lia. }
    intros i Hi. apply Hrest. lia.
Qed.

(** X3. On a device of 2 to 2^32 - 1 blocks whose image holds them all,
    [fs_format] returns (false) after writing a superblock with the
    magic number, the block count, [ceil(blocks / 10)] inode blocks and
    128 inodes for each of them, and a block of zeros over every inode
    block; every block after the inode blocks is left as it was, the
    image keeps its length and the heap is untouched. *)
Theorem fs_format_layout (fs : FileSystem) (d : Disk) (m : Machine) :
  0 <= fd d ->
  2 <= blocks d < 2 ^ 32 ->
  blocks d <= Z.of_nat (length (file m)) ->
  length (stack_block m) = Z.to_nat POINTERS_PER_BLOCK ->
  exists m',
    fs_format fs (Some d) m = Ret false m'
    /\ length (file m') = length (file m)
    /\ heap m' = heap m
    /\ block_super <$> file m' !! 0%nat
       = Some {| magic_number := MAGIC_NUMBER;
                 sb_blocks := blocks d;
                 inode_blocks := ceil_tenth (blocks d);
                 inodes := u32 (ceil_tenth (blocks d) * INODES_PER_BLOCK) |}
    /\ (forall i, 1 <= i <= ceil_tenth (blocks d) ->
          file m' !! Z.to_nat i = Some zero_block)
    /\ (forall i, ceil_tenth (blocks d) < i ->
          file m' !! Z.to_nat i = file m !! Z.to_nat i).
Proof.
  intros Hfd Hnb Himg Hstack.
  destruct (fs_format_spec fs d m Hfd Hnb Himg Hstack)
    as (m' & Hrun & Hh & _ & Hlen & H0 & Hz & Hrest).
  exists m'. split; [exact Hrun|]. split; [exact Hlen|]. split; [exact Hh|].
  split; [|split; assumption].
  rewrite H0. simpl. f_equal. apply block_super_set.
  rewrite Hstack. change (Z.to_nat POINTERS_PER_BLOCK) with 1024%nat. lia.
Qed.

Lemma fs_format_layout_witness :
  exists m',
    fs_format Fixture.fs0 (Some Fixture.disk20) Fixture.blank = Ret false m'
    /\ length (file m') = length (file Fixture.blank)
    /\ heap m' = heap Fixture.blank
    /\ block_super <$> file m' !! 0%nat
       = Some {| magic_number := MAGIC_NUMBER;
                 sb_blocks := 20;
                 inode_blocks := ceil_tenth 20;
                 inodes := u32 (ceil_tenth 20 * INODES_PER_BLOCK) |}
    /\ (forall i, 1 <= i <= ceil_tenth 20 ->
          file m' !! Z.to_nat i = Some zero_block)
    /\ (forall i, ceil_tenth 20 < i ->
          file m' !! Z.to_nat i = file Fixture.blank !! Z.to_nat i).
Proof.
  apply (fs_format_layout Fixture.fs0 Fixture.disk20 Fixture.blank).
  - simpl; lia.
  - simpl; lia.
  - vm_compute; discriminate.
  - vm_compute; reflexivity.
Defined.

Lemma word_zero_block i : word zero_block i = 0.
Proof.
  unfold word, zero_block.
  destruct (replicate _ _ !! _) as [x|] eqn:E; [|reflexivity].
  apply lookup_replicate in E as [-> _]. reflexivity.
Qed.

(** A block of zeros holds no valid inode: the scan leaves the array. *)
Lemma mark_block_zero fs (a : list bool) (m : Machine) :
  mark_block fs zero_block a m = Ret (Continue a) m.
Proof.
  destruct (for_int_invariant (R := unit)
    (fun (_ : Z) (a' : list bool) (m' : Machine) => a' = a /\ m' = m)
    (fun j a =>
       let ino := block_inode zero_block j in
       if valid ino =? 0 then mret (Continue a)
       else mark_direct fs ino a)
    (Z.to_nat INODES_PER_BLOCK) 0 a m) as (a' & m' & Hrun & -> & ->).
  - unfold INT_MAX, INODES_PER_BLOCK. simpl. lia.
  - split; reflexivity.
  - intros k a1 m1 _ [-> ->]. exists a, m. split; [|split; reflexivity].
    cbv zeta. unfold block_inode at 1. simpl valid.
    rewrite word_zero_block. reflexivity.
  - exact Hrun.
Qed.

(** X4. [fs_mount] after [fs_format] of the same device: the handle
    records the device, the superblock that was written, and a bitmap
    of [blocks - inode_blocks] entries, all clear; the mount leaves the
    formatted image as it is. *)
Theorem fs_mount_after_format (fs fs1 : FileSystem) (d : Disk) (m : Machine) :
  0 <= fd d ->
  2 <= blocks d < 2 ^ 32 ->
  blocks d <= Z.of_nat (length (file m)) ->
  length (stack_block m) = Z.to_nat POINTERS_PER_BLOCK ->
  exists m1 m2,
    fs_format fs (Some d) m = Ret false m1
    /\ fs_mount fs1 (Some d) m1
       = Ret (false,
              {| disk := Some d;
                 meta_data :=
                   {| magic_number := MAGIC_NUMBER;
                      sb_blocks := blocks d;
                      inode_blocks := ceil_tenth (blocks d);
                      inodes := u32 (ceil_tenth (blocks d) * INODES_PER_BLOCK) |};
                 free_blocks :=
                   Some (replicate
                           (Z.to_nat (blocks d - ceil_tenth (blocks d)))
                           false) |})
             m2
    /\ file m2 = file m1.
Proof.
  intros Hfd Hnb Himg Hstack.
  destruct (fs_format_spec fs d m Hfd Hnb Himg Hstack)
    as (m1 & Hrun & Hh & Hst & Hlen & H0 & Hz & Hrest).
  assert (Hib : 1 <= ceil_tenth (blocks d) < blocks d).
  { unfold ceil_tenth. split.
    - apply Z.div_le_lower_bound; lia.
    - apply Z.div_lt_upper_bound; lia. }
  assert (Hib' : ceil_tenth (blocks d) <= INT_MAX).
  { unfold ceil_tenth, INT_MAX. apply Z.div_le_upper_bound; lia. }
  set (ib := ceil_tenth (blocks d)) in *.
  set (sp := {| magic_number := MAGIC_NUMBER; sb_blocks := blocks d;
                inode_blocks := ib;
                inodes := u32 (ib * INODES_PER_BLOCK) |}) in *.
  set (fs2 := {| disk := Some d; meta_data := sp;
                 free_blocks := free_blocks fs1 |}).
  set (a0 := replicate (Z.to_nat (blocks d - ib)) false).
  assert (Hsp : block_super (set_block_super sp (stack_block m)) = sp).
  { apply block_super_set. rewrite Hstack.
    change (Z.to_nat POINTERS_PER_BLOCK) with 1024%nat. lia. }
  set (m1' := log (io_read (0 * BLOCK_SIZE)) m1).
  destruct (for_int_invariant (R := unit)
    (fun (_ : Z) (a : list bool) (m' : Machine) =>
       a = a0 /\ file m' = file m1)
    (fun i a =>
       blk ← uninit_block;
       '(n, blk) ← disk_read_blk (disk fs2) i blk;
       if n =? DISK_FAILURE then mret (Return ())
       else mark_block fs2 blk a)
    (Z.to_nat ib) 1 a0 m1') as (a & m2 & Hloop & -> & Hfile).
  - unfold INT_MAX in *. lia.
  - split; reflexivity.
  - intros k a m' Hk [-> Hf]. munfold. simpl disk.
    rewrite (disk_read_blk_ok d k _ zero_block)
      by (try lia; rewrite Hf; apply Hz; lia).
    change (BLOCK_SIZE =? DISK_FAILURE) with false. cbv iota.
    rewrite mark_block_zero. eexists _, _. split; [reflexivity|].
    split; [reflexivity|exact Hf].
  - exists m1, m2. split; [exact Hrun|]. split; [|exact Hfile].
    unfold fs_mount. munfold. simpl bool_decide. cbv iota.
    rewrite (disk_read_blk_ok d 0 _ _ m1 Hfd ltac:(lia) ltac:(lia) H0).
    change (BLOCK_SIZE =? DISK_FAILURE) with false. cbv iota.
    rewrite Hsp.
    change (magic_number sp =? MAGIC_NUMBER) with true. simpl negb. cbv iota.
    fold fs2. unfold fs_initialize_free_block_bitmap. munfold.
    simpl bool_decide. cbv iota.
    change (meta_data fs2) with sp.
    change (sb_blocks sp) with (blocks d). change (inode_blocks sp) with ib.
    replace (u32 (blocks d - ib)) with (blocks d - ib)
      by (unfold u32; rewrite Z.mod_small; lia).
    fold a0. fold m1'. change (negb true) with false. cbv beta iota.
    rewrite bool_decide_eq_true_2 by discriminate. cbv beta iota.
    match goal with
    | |- context [for_int ?n ?i ?b ?s ?mm] =>
        replace (for_int n i b s mm)
          with (@Ret (step (list bool) unit) (Continue a0) m2)
          by (symmetry; exact Hloop)
    end.
    reflexivity.
Qed.

Lemma fs_mount_after_format_witness :
  exists m1 m2,
    fs_format Fixture.fs0 (Some Fixture.disk20) Fixture.blank = Ret false m1
    /\ fs_mount Fixture.fs0 (Some Fixture.disk20) m1
       = Ret (false,
              {| disk := Some Fixture.disk20;
                 meta_data :=
                   {| magic_number := MAGIC_NUMBER;
                      sb_blocks := 20;
                      inode_blocks := ceil_tenth 20;
                      inodes := u32 (ceil_tenth 20 * INODES_PER_BLOCK) |};
                 free_blocks :=
                   Some (replicate (Z.to_nat (20 - ceil_tenth 20)) false) |})
             m2
    /\ file m2 = file m1.
Proof.
  apply (fs_mount_after_format Fixture.fs0 Fixture.fs0 Fixture.disk20
           Fixture.blank).
  - simpl; lia.
  - simpl; lia.
  - vm_compute; discriminate.
  - vm_compute; reflexivity.
Defined.

(** *** What the operations leave alone *)

(** A property of the machine that every turn keeps is kept by the loop. *)
Lemma for_int_preserves {St R : Type} (P : Machine -> Prop)
    (body : Z -> St -> M (step St R)) :
  (forall k s m r m', P m -> body k s m = Ret r m' -> P m') ->
  forall n i s m r m', P m -> for_int n i body s m = Ret r m' -> P m'.
Proof.
  intros Hbody n; induction n as [|n IH]; intros i s m r m' HP H; simpl in H.
  - munfold. inversion H; subst. exact HP.
  - destruct (INT_MAX <? i); [discriminate|].
    munfold. destruct (body i s m) as [[s'|v] m1| |] eqn:Hb; try discriminate.
    + eapply IH; [|exact H]. eapply Hbody; eassumption.
    + inversion H; subst. eapply Hbody; eassumption.
Qed.

Lemma disk_read_blk_store disk i blk m r m' :
  disk_read_blk disk i blk m = Ret r m' ->
  file m' = file m /\ heap m' = heap m.
Proof.
  unfold disk_read_blk, disk_read, sys_read. munfold.
  destruct (negb _); [intros H; inversion H; split; reflexivity|].
  destruct (_ =? -1); [intros H; inversion H; split; reflexivity|].
  destruct (file m !! _); intros H; inversion H; split; reflexivity.
Qed.

Lemma mark_direct_store fs ino a m r m' :
  mark_direct fs ino a m = Ret r m' -> m' = m.
Proof.
  unfold mark_direct. apply (for_int_preserves (fun m' => m' = m)); [|reflexivity].
  clear. intros k a m1 r m2 ->. munfold.
  destruct (negb _); [|intros H; inversion H; reflexivity].
  unfold store_bit. munfold.
  destruct (_ && _); [|discriminate]. intros H; inversion H; reflexivity.
Qed.

Lemma mark_block_store fs blk a m r m' :
  mark_block fs blk a m = Ret r m' -> m' = m.
Proof.
  unfold mark_block. apply (for_int_preserves (fun m' => m' = m)); [|reflexivity].
  clear. intros k a m1 r m2 ->. cbv zeta. munfold.
  destruct (_ =? 0); [intros H; inversion H; reflexivity|].
  apply mark_direct_store.
Qed.

Lemma fs_initialize_store fs m fs' m' :
  fs_initialize_free_block_bitmap fs m = Ret fs' m' ->
  (file m' = file m /\ heap m' = heap m)
  /\ disk fs' = disk fs /\ meta_data fs' = meta_data fs.
Proof.
  unfold fs_initialize_free_block_bitmap. munfold.
  destruct (bool_decide _); [|discriminate].
  match goal with
  | |- context [for_int ?n ?i ?b ?s ?mm] =>
      destruct (for_int n i b s mm) as [r m1| |] eqn:Hl; [|discriminate..]
  end.
  intros H.
  assert (Hst : file m1 = file m /\ heap m1 = heap m).
  { revert Hl.
    apply (for_int_preserves (fun m' => file m' = file m /\ heap m' = heap m));
      [|split; reflexivity].
    clear. intros k a m1 r m2 [Hf Hh].
    destruct (disk_read_blk _ _ _ _) as [[n blk] m3| |] eqn:Hr; [|discriminate..].
    apply disk_read_blk_store in Hr as [Hf3 Hh3].
    destruct (n =? DISK_FAILURE).
    - intros H; inversion H; subst. split; congruence.
    - intros H%mark_block_store. subst. split; congruence. }
  destruct r; inversion H; subst; (split; [exact Hst|split; reflexivity]).
Qed.

(** X5. Whenever [fs_mount] returns, the image and the heap are what
    they were, and either the handle comes back unchanged or it records
    the device passed and a superblock whose magic number is
    [MAGIC_NUMBER]. *)
Theorem fs_mount_reads_only (fs : FileSystem) (disk0 : option Disk)
    (m : Machine) (b : bool) (fs' : FileSystem) (m' : Machine) :
  fs_mount fs disk0 m = Ret (b, fs') m' ->
  file m' = file m /\ heap m' = heap m
  /\ (fs' = fs
      \/ (disk fs' = disk0
          /\ magic_number (meta_data fs') = MAGIC_NUMBER)).
Proof.
  unfold fs_mount. munfold.
  destruct (bool_decide _); [|discriminate].
  destruct (disk_read_blk _ _ _ _) as [[n blk] m1| |] eqn:Hr; [|discriminate..].
  apply disk_read_blk_store in Hr as [Hf1 Hh1].
  destruct (n =? DISK_FAILURE).
  { intros H; inversion H; subst. split; [|split]; auto. }
  destruct (Z.eqb_spec (magic_number (block_super blk)) MAGIC_NUMBER)
    as [Hmagic|_]; simpl.
  2:{ intros H; inversion H; subst. split; [|split]; auto. }
  destruct (fs_initialize_free_block_bitmap _ _) as [fs2 m2| |] eqn:Hi;
    [|discriminate..].
  apply fs_initialize_store in Hi as ([Hf2 Hh2] & Hd & Hm).
  intros H; inversion H; subst.
  split; [congruence|]. split; [congruence|].
  right. rewrite Hd, Hm. split; [reflexivity|exact Hmagic].
Qed.

Lemma fs_mount_reads_only_witness :
  fs_mount Fixture.fs0 (Some Fixture.disk20) Fixture.populated
    = Ret (false, Fixture.mounted3)
        {| file := Fixture.image3;
           trace := [io_read 0; io_read 4096; io_read 8192];
           heap := []; stack_block := zero_block; stack_ptr := NULL |}
  /\ (Fixture.mounted3 = Fixture.fs0
      \/ (disk Fixture.mounted3 = Some Fixture.disk20
          /\ magic_number (meta_data Fixture.mounted3) = MAGIC_NUMBER)).
Proof.
  assert (H : fs_mount Fixture.fs0 (Some Fixture.disk20) Fixture.populated
    = Ret (false, Fixture.mounted3)
        {| file := Fixture.image3;
           trace := [io_read 0; io_read 4096; io_read 8192];
           heap := []; stack_block := zero_block; stack_ptr := NULL |})
    by (vm_compute; reflexivity).
  split; [exact H|].
  exact (proj2 (proj2 (fs_mount_reads_only _ _ _ _ _ _ H))).
Defined.

(** X6. [fs_mount] returns false and leaves the handle, the image and
    the heap as they were when block 0 cannot be read (negative
    descriptor, device without blocks) or when the first word of
    block 0 is not the magic number. *)
Theorem fs_mount_rejects (fs : FileSystem) (d : Disk) (m : Machine) :
  fd d < 0 \/ blocks d <= 0
  \/ (0 <= fd d /\ 0 < blocks d <= 2 ^ 51
      /\ exists blk, file m !! 0%nat = Some blk
                     /\ magic_number (block_super blk) <> MAGIC_NUMBER) ->
  exists m',
    fs_mount fs (Some d) m = Ret (false, fs) m'
    /\ file m' = file m /\ heap m' = heap m.
Proof.
  intros H. unfold fs_mount. munfold. simpl bool_decide. cbv iota.
  assert (Hcase : disk_sanity_check (Some d) 0 (Some (stack_block m)) = false
          \/ (0 <= fd d /\ 0 < blocks d <= 2 ^ 51
              /\ exists blk, file m !! 0%nat = Some blk
                     /\ magic_number (block_super blk) <> MAGIC_NUMBER)).
  { destruct H as [H|[H|H]]; [left|left|right; exact H];
      unfold disk_sanity_check.
    - destruct (Z.ltb_spec (fd d) 0); [reflexivity|lia].
    - destruct (fd d <? 0); [reflexivity|].
      destruct (Z.leb_spec (blocks d) 0); [reflexivity|lia]. }
  destruct Hcase as [Hs|(Hfd & Hnb & blk & Hblk & Hmagic)].
  - exists m. unfold disk_read_blk. munfold.
    rewrite sanity_check_false_read by exact Hs.
    split; [reflexivity|split; reflexivity].
  - exists (log (io_read (0 * BLOCK_SIZE)) m).
    rewrite (disk_read_blk_ok d 0 _ blk) by (assumption || lia).
    change (BLOCK_SIZE =? DISK_FAILURE) with false. cbv iota.
    destruct (Z.eqb_spec (magic_number (block_super blk)) MAGIC_NUMBER)
      as [E|_]; [contradiction|].
    split; [reflexivity|split; reflexivity].
Qed.

Lemma fs_mount_rejects_witness :
  exists m',
    fs_mount Fixture.fs0 (Some Fixture.disk20) Fixture.blank
    = Ret (false, Fixture.fs0) m'
    /\ file m' = file Fixture.blank /\ heap m' = heap Fixture.blank.
Proof.
  apply (fs_mount_rejects Fixture.fs0 Fixture.disk20 Fixture.blank).
  right; right. split; [simpl; lia|]. split; [simpl; lia|].
  exists zero_block. split; [reflexivity|]. vm_compute; discriminate.
Defined.

(** *** fs_create *)




(** *** Saving and loading an inode *)

Lemma word_set_word i x b p :
  0 <= i -> 0 <= p -> (Z.to_nat i < length b)%nat ->
  word (set_word i x b) p = if p =? i then x else word b p.
Proof.
  intros Hi Hp Hlen. unfold word, set_word.
  destruct (Z.eqb_spec p i) as [->|Hne].
  - rewrite list_lookup_insert_eq by exact Hlen. reflexivity.
  - rewrite list_lookup_insert_ne by lia. reflexivity.
Qed.

Lemma word_set_block_inode_at j v blk p :
  0 <= j -> 0 <= p -> 8 * j + 8 <= Z.of_nat (length blk) ->
  word (set_block_inode j v blk) p
  = if p =? 8 * j + 7 then indirect v
    else if p =? 8 * j + 6 then direct_at v 4
    else if p =? 8 * j + 5 then direct_at v 3
    else if p =? 8 * j + 4 then direct_at v 2
    else if p =? 8 * j + 3 then direct_at v 1
    else if p =? 8 * j + 2 then direct_at v 0
    else if p =? 8 * j + 1 then size v
    else if p =? 8 * j then valid v
    else word blk p.
Proof.
  intros Hj Hp Hlen. unfold set_block_inode.
  rewrite !word_set_word by (rewrite ?length_set_word; lia).
  reflexivity.
Qed.

Lemma word_set_block_inode_other j v blk p :
  0 <= j -> 0 <= p -> 8 * j + 8 <= Z.of_nat (length blk) ->
  ~ (8 * j <= p < 8 * j + 8) ->
  word (set_block_inode j v blk) p = word blk p.
Proof.
  intros Hj Hp Hlen Hout. rewrite word_set_block_inode_at by assumption.
  repeat match goal with
         | |- context [if ?x =? ?y then _ else _] =>
             destruct (Z.eqb_spec x y); [exfalso; lia|]
         end.
  reflexivity.
Qed.

Lemma block_inode_set j v blk :
  0 <= j < INODES_PER_BLOCK ->
  length blk = Z.to_nat POINTERS_PER_BLOCK ->
  length (direct v) = 5%nat ->
  block_inode (set_block_inode j v blk) j = v.
Proof.
  intros Hj Hlen Hd. destruct v as [vl sz dr ind]. simpl in Hd.
  destruct dr as [|d0 [|d1 [|d2 [|d3 [|d4 [|]]]]]]; try discriminate Hd.
  unfold INODES_PER_BLOCK in Hj.
  unfold POINTERS_PER_BLOCK in Hlen.
  unfold block_inode. simpl map.
  rewrite !word_set_block_inode_at by lia.
  repeat match goal with
         | |- context [?x =? ?y] =>
             destruct (Z.eqb_spec x y); try (exfalso; lia)
         end.
  reflexivity.
Qed.

Lemma block_inode_set_other j j' v blk :
  0 <= j -> 0 <= j' -> j' <> j ->
  8 * j + 8 <= Z.of_nat (length blk) ->
  block_inode (set_block_inode j v blk) j' = block_inode blk j'.
Proof.
  intros Hj Hj' Hne Hlen. unfold block_inode. simpl map.
  rewrite !word_set_block_inode_other by lia. reflexivity.
Qed.

Lemma fs_save_inode_ok fs d n a v blk m :
  disk fs = Some d -> 0 <= fd d -> blocks d <= 2 ^ 51 ->
  0 <= n -> n / INODES_PER_BLOCK < blocks d ->
  file m !! Z.to_nat (n / INODES_PER_BLOCK) = Some blk ->
  heap m !! a = Some (Some v) ->
  fs_save_inode fs n (Some a) m
  = Ret true
      (log (io_write (n / INODES_PER_BLOCK * BLOCK_SIZE))
         (set_file
            (<[Z.to_nat (n / INODES_PER_BLOCK) :=
                 set_block_inode (n mod INODES_PER_BLOCK) v blk]> (file m))
            (log (io_read (n / INODES_PER_BLOCK * BLOCK_SIZE)) m))).
Proof.
  intros Hd Hfd Hmax Hn Hblk Hb Ha.
  assert (Hdiv : 0 <= n / INODES_PER_BLOCK)
    by (apply Z.div_pos; unfold INODES_PER_BLOCK; lia).
  unfold fs_save_inode. munfold. rewrite Hd.
  rewrite bool_decide_eq_true_2 by discriminate.
  rewrite bool_decide_eq_true_2 by discriminate. cbv beta iota.
  rewrite (disk_read_blk_ok d _ _ blk) by (assumption || lia).
  change (BLOCK_SIZE =? DISK_FAILURE) with false. cbv iota.
  unfold deref. cbn [heap log]. rewrite Ha.
  unfold disk_write_blk. rewrite disk_write_ok by lia.
  rewrite written_in_image
    by (cbn [file log]; eapply lookup_lt_Some; eassumption).
  change (BLOCK_SIZE =? DISK_FAILURE) with false. cbv iota.
  replace (n - INODES_PER_BLOCK * (n / INODES_PER_BLOCK))
    with (n mod INODES_PER_BLOCK)
    by (rewrite Z.mod_eq by (unfold INODES_PER_BLOCK; lia); reflexivity).
  reflexivity.
Qed.

(** X8. [fs_save_inode] of a valid inode object under number [n],
    followed by [fs_load_inode] of [n], succeeds twice and loads an
    object equal to the one saved.  The save leaves every other block
    of the image and every other inode slot of the block as they
    were. *)
Theorem fs_save_load_round_trip (fs : FileSystem) (d : Disk) (n : Z)
    (a : nat) (v : Inode) (blk : Block) (m : Machine) :
  disk fs = Some d -> 0 <= fd d -> blocks d <= 2 ^ 51 ->
  0 <= n -> n / INODES_PER_BLOCK < blocks d ->
  file m !! Z.to_nat (n / INODES_PER_BLOCK) = Some blk ->
  length blk = Z.to_nat POINTERS_PER_BLOCK ->
  heap m !! a = Some (Some v) ->
  length (direct v) = 5%nat ->
  valid v <> 0 ->
  exists m1 p m2,
    fs_save_inode fs n (Some a) m = Ret true m1
    /\ fs_load_inode fs n NULL m1 = Ret (true, p) m2
    /\ deref p m2 = Ret v m2
    /\ (forall i b, i <> Z.to_nat (n / INODES_PER_BLOCK) ->
          file m !! i = Some b -> file m1 !! i = Some b)
    /\ (forall j, 0 <= j < INODES_PER_BLOCK -> j <> n mod INODES_PER_BLOCK ->
          exists blk1,
            file m1 !! Z.to_nat (n / INODES_PER_BLOCK) = Some blk1
            /\ block_inode blk1 j = block_inode blk j).
Proof.
  intros Hd Hfd Hmax Hn Hblk Hb Hlen Ha Hdir Hv.
  assert (Hdiv : 0 <= n / INODES_PER_BLOCK)
    by (apply Z.div_pos; unfold INODES_PER_BLOCK; lia).
  assert (Hmod : 0 <= n mod INODES_PER_BLOCK < INODES_PER_BLOCK)
    by (apply Z.mod_pos_bound; unfold INODES_PER_BLOCK; lia).
  assert (Hin : (Z.to_nat (n / INODES_PER_BLOCK) < length (file m))%nat)
    by (eapply lookup_lt_Some; eassumption).
  eexists _, _, _.
  split; [eapply fs_save_inode_ok; eassumption|].
  split.
  { rewrite (fs_load_inode_reads fs d n
               (set_block_inode (n mod INODES_PER_BLOCK) v blk))
      by (try assumption; try lia; cbn [file log set_file];
          apply list_lookup_insert_eq; exact Hin).
    cbv zeta. rewrite block_inode_set by assumption.
    destruct (Z.eqb_spec (valid v) 0) as [E|_]; [contradiction|].
    reflexivity. }
  split.
  { unfold deref. cbn [heap set_heap log set_file].
    rewrite lookup_app_r by lia. rewrite Nat.sub_diag. reflexivity. }
  split.
  { intros i b Hi Hib. cbn [file log set_file].
    rewrite list_lookup_insert_ne by lia. exact Hib. }
  intros j Hj Hne. eexists. split.
  { cbn [file log set_file]. apply list_lookup_insert_eq. exact Hin. }
  apply block_inode_set_other; try lia.
  rewrite Hlen. unfold POINTERS_PER_BLOCK, INODES_PER_BLOCK in *. lia.
Qed.

Lemma fs_save_load_round_trip_witness :
  exists m1 p m2,
    fs_save_inode Fixture.mounted3 130 (Some 0%nat) Fixture.holding1
    = Ret true m1
    /\ fs_load_inode Fixture.mounted3 130 NULL m1 = Ret (true, p) m2
    /\ deref p m2 = Ret Fixture.ino1 m2
    /\ (forall i b, i <> Z.to_nat (130 / INODES_PER_BLOCK) ->
          file Fixture.holding1 !! i = Some b -> file m1 !! i = Some b)
    /\ (forall j, 0 <= j < INODES_PER_BLOCK -> j <> 130 mod INODES_PER_BLOCK ->
          exists blk1,
            file m1 !! Z.to_nat (130 / INODES_PER_BLOCK) = Some blk1
            /\ block_inode blk1 j
               = block_inode
                   (set_block_inode 1 Fixture.ino1
                      (set_block_inode 0 Fixture.ino0 zero_block)) j).
Proof.
  apply (fs_save_load_round_trip Fixture.mounted3 Fixture.disk20 130 0%nat
           Fixture.ino1
           (set_block_inode 1 Fixture.ino1
              (set_block_inode 0 Fixture.ino0 zero_block))
           Fixture.holding1).
  - reflexivity.
  - simpl; lia.
  - simpl; lia.
  - lia.
  - vm_compute; reflexivity.
  - vm_compute; reflexivity.
  - vm_compute; reflexivity.
  - reflexivity.
  - reflexivity.
  - simpl; lia.
Defined.

(** *** Only referenced blocks are marked *)

(** Partial-correctness rule: an invariant each completed turn keeps
    holds when the loop runs to its end. *)
Lemma for_int_partial {St R : Type} (Inv : Z -> St -> Machine -> Prop)
    (body : Z -> St -> M (step St R)) (n : nat) :
  forall (i : Z) (s : St) (m : Machine) (s' : St) (m' : Machine),
  Inv i s m ->
  (forall k s m s1 m1, i <= k < i + Z.of_nat n -> Inv k s m ->
     body k s m = Ret (Continue s1) m1 -> Inv (k + 1) s1 m1) ->
  for_int n i body s m = Ret (Continue s') m' ->
  Inv (i + Z.of_nat n) s' m'.
Proof.
  induction n as [|n IH]; intros i s m s' m' Hinv Hbody H; simpl in H.
  - munfold. inversion H; subst.
    replace (i + Z.of_nat 0) with i by lia. exact Hinv.
  - destruct (INT_MAX <? i); [discriminate|].
    munfold. destruct (body i s m) as [[s1|v] m1| |] eqn:Hb; try discriminate.
    replace (i + Z.of_nat (S n)) with (i + 1 + Z.of_nat n) by lia.
    eapply IH; [|intros k ? ? ? ? Hk; apply Hbody; lia|exact H].
    eapply Hbody; [lia|exact Hinv|exact Hb].
Qed.

Section BitmapOnly.

Variable fs : FileSystem.
Local Abbreviation sb := (meta_data fs).
Hypothesis Hib : 0 <= inode_blocks sb < sb_blocks sb.
Hypothesis Hnb : sb_blocks sb <= INT_MAX.

Lemma mark_direct_only (ino : Inode) (a0 a : list bool) (m m' : Machine) :
  inode_pointers_ok sb ino = true ->
  mark_direct fs ino a0 m = Ret (Continue a) m' ->
  marks_only a0 a (fun idx =>
    exists k, 0 <= k < POINTERS_PER_INODE /\ direct_at ino k <> 0
              /\ idx = bit_index sb (direct_at ino k)).
Proof.
  intros Hok Hrun.
  apply (for_int_partial
    (fun (k : Z) (a : list bool) (_ : Machine) =>
       marks_only a0 a (fun idx =>
         exists k', 0 <= k' < k /\ direct_at ino k' <> 0
                    /\ idx = bit_index sb (direct_at ino k')))) in Hrun.
  - intros idx Hidx. destruct (Hrun idx Hidx) as [H|(k & Hk & H)];
      [left; exact H|right; exists k].
    split; [|exact H]. unfold POINTERS_PER_INODE in *. simpl in Hk. lia.
  - intros idx Hidx. left. exact Hidx.
  - intros k a1 m1 a2 m2 Hk Hinv.
    assert (Hk' : 0 <= k < 0 + POINTERS_PER_INODE)
      by (unfold POINTERS_PER_INODE in *; simpl in Hk; lia).
    pose proof (forallb_seqZ _ _ _ Hok k Hk') as Hp. simpl in Hp.
    munfold.
    destruct (Z.eqb_spec (direct_at ino k) 0) as [Hz|Hnz]; simpl.
    + intros H; inversion H; subst. intros idx Hidx.
      destruct (Hinv idx Hidx) as [H'|(k' & Hk'' & H')];
        [left; exact H'|right; exists k'; split; [lia|exact H']].
    + unfold pointer_in_data_region in Hp.
      apply andb_true_iff in Hp as [Hlo%Z.ltb_lt Hhi%Z.ltb_lt].
      rewrite (to_int_index fs Hib Hnb) by lia.
      unfold store_bit. munfold.
      destruct (_ && _); [|discriminate].
      intros H; inversion H; subst. intros idx Hidx.
      destruct (decide (bit_index sb (direct_at ino k) = idx)) as [<-|Hne].
      * right. exists k. split; [lia|]. split; [exact Hnz|reflexivity].
      * unfold bit_index in Hne.
        rewrite list_lookup_insert_ne in Hidx by exact Hne.
        destruct (Hinv idx Hidx) as [H'|(k' & Hk'' & H')];
          [left; exact H'|right; exists k'; split; [lia|exact H']].
Qed.

Lemma mark_block_only (blk : Block) (a0 a : list bool) (m m' : Machine) :
  (forall j, 0 <= j < INODES_PER_BLOCK ->
     valid (block_inode blk j) <> 0 ->
     inode_pointers_ok sb (block_inode blk j) = true) ->
  mark_block fs blk a0 m = Ret (Continue a) m' ->
  marks_only a0 a (fun idx =>
    exists j k, 0 <= j < INODES_PER_BLOCK /\ 0 <= k < POINTERS_PER_INODE
                /\ valid (block_inode blk j) <> 0
                /\ direct_at (block_inode blk j) k <> 0
                /\ idx = bit_index sb (direct_at (block_inode blk j) k)).
Proof.
  intros Hok Hrun.
  apply (for_int_partial
    (fun (j : Z) (a : list bool) (_ : Machine) =>
       marks_only a0 a (fun idx =>
         exists j' k, 0 <= j' < j /\ 0 <= k < POINTERS_PER_INODE
                /\ valid (block_inode blk j') <> 0
                /\ direct_at (block_inode blk j') k <> 0
                /\ idx = bit_index sb (direct_at (block_inode blk j') k))))
    in Hrun.
  - intros idx Hidx. destruct (Hrun idx Hidx) as [H|(j & k & Hj & H)];
      [left; exact H|right; exists j, k].
    split; [|exact H]. unfold INODES_PER_BLOCK in *. simpl in Hj. lia.
  - intros idx Hidx. left. exact Hidx.
  - intros j a1 m1 a2 m2 Hj Hinv.
    assert (Hj' : 0 <= j < INODES_PER_BLOCK)
      by (unfold INODES_PER_BLOCK in *; simpl in Hj; lia).
    cbv zeta. munfold.
    destruct (Z.eqb_spec (valid (block_inode blk j)) 0) as [Hz|Hnz].
    + intros H; inversion H; subst. intros idx Hidx.
      destruct (Hinv idx Hidx) as [H'|(j' & k & Hj'' & H')];
        [left; exact H'|right; exists j', k; split; [lia|exact H']].
    + intros H. apply mark_direct_only in H; [|apply Hok; assumption].
      intros idx Hidx. destruct (H idx Hidx) as [H1|(k & Hk & Hd & ->)].
      * destruct (Hinv idx H1) as [H'|(j' & k & Hj'' & H')];
          [left; exact H'|right; exists j', k; split; [lia|exact H']].
      * right. exists j, k. split; [lia|]. repeat split; assumption || lia.
Qed.

End BitmapOnly.

(** X9. In the bitmap that [fs_initialize_free_block_bitmap] builds,
    every set entry is the entry [p - 1 - inode_blocks] of a non-zero
    direct pointer [p] of a valid inode of the inode blocks: a block
    that no valid inode points to directly is never marked. *)
Theorem mount_bitmap_marks_only_referenced
    (fs : FileSystem) (d : Disk) (m : Machine) :
  disk fs = Some d ->
  0 <= fd d ->
  0 <= inode_blocks (meta_data fs) < sb_blocks (meta_data fs) ->
  sb_blocks (meta_data fs) <= blocks d ->
  sb_blocks (meta_data fs) <= INT_MAX ->
  blocks d <= Z.of_nat (length (file m)) ->
  inode_table_ok (meta_data fs) (file m) = true ->
  exists a m',
    fs_initialize_free_block_bitmap fs m = Ret (set_free_blocks fs a) m'
    /\ forall idx, a !! idx = Some true ->
         exists i j k blk,
           1 <= i <= inode_blocks (meta_data fs)
           /\ 0 <= j < INODES_PER_BLOCK
           /\ 0 <= k < POINTERS_PER_INODE
           /\ file m !! Z.to_nat i = Some blk
           /\ valid (block_inode blk j) <> 0
           /\ direct_at (block_inode blk j) k <> 0
           /\ idx = bit_index (meta_data fs) (direct_at (block_inode blk j) k).
Proof.
  intros Hd Hfd Hib Hnb Hmax Himg Hok.
  set (sb := meta_data fs) in *.
  set (a0 := replicate (Z.to_nat (sb_blocks sb - inode_blocks sb)) false).
  pose (Inv := fun (i : Z) (a : list bool) (m' : Machine) =>
    file m' = file m /\ length a = length a0
    /\ marks_only a0 a (fun idx =>
         exists i' j k blk,
           1 <= i' < i /\ 0 <= j < INODES_PER_BLOCK
           /\ 0 <= k < POINTERS_PER_INODE
           /\ file m !! Z.to_nat i' = Some blk
           /\ valid (block_inode blk j) <> 0
           /\ direct_at (block_inode blk j) k <> 0
           /\ idx = bit_index sb (direct_at (block_inode blk j) k))).
  destruct (for_int_invariant (R := unit) Inv
    (fun i a =>
       blk ← uninit_block;
       '(n, blk) ← disk_read_blk (disk fs) i blk;
       if n =? DISK_FAILURE then mret (Return ())
       else mark_block fs blk a)
    (Z.to_nat (inode_blocks sb)) 1 a0 m) as (a & m' & Hrun & Hf & Hl & Honly).
  - unfold INT_MAX in *. lia.
  - split; [reflexivity|]. split; [reflexivity|]. intros idx H. left; exact H.
  - intros i a m1 Hi (Hfile & Hlen & Honly).
    assert (Hi' : 1 <= i <= inode_blocks sb) by lia.
    destruct (lookup_lt_is_Some_2 (file m) (Z.to_nat i) ltac:(lia))
      as [blk Hblk].
    assert (Hrow : forall j, 0 <= j < INODES_PER_BLOCK ->
              valid (block_inode blk j) <> 0 ->
              inode_pointers_ok sb (block_inode blk j) = true).
    { intros j Hj Hv.
      pose proof (forallb_seqZ _ _ _ Hok i ltac:(fold sb; lia)) as Hrow.
      cbv beta in Hrow.
      pose proof (forallb_seqZ _ _ _ Hrow j ltac:(lia)) as Hino.
      cbv beta zeta in Hino. rewrite Hblk in Hino.
      apply orb_true_iff in Hino as [Hz%Z.eqb_eq|Hino];
        [exfalso; apply Hv; exact Hz|].
      exact Hino. }
    munfold. rewrite Hd.
    rewrite (disk_read_blk_ok d i _ blk)
      by (try assumption; try (unfold INT_MAX in *; lia);
          rewrite Hfile; exact Hblk).
    change (BLOCK_SIZE =? DISK_FAILURE) with false. cbv iota.
    destruct (mark_block_spec fs Hib Hmax blk a
                (log (io_read (i * BLOCK_SIZE)) m1))
      as (a' & Hrun & [Hlen' _] & _).
    { rewrite Hlen. unfold a0. apply length_replicate. }
    { exact Hrow. }
    exists a', (log (io_read (i * BLOCK_SIZE)) m1).
    split; [exact Hrun|]. split; [exact Hfile|].
    split; [congruence|].
    apply (mark_block_only fs Hib Hmax) in Hrun; [|exact Hrow].
    intros idx Hidx. destruct (Hrun idx Hidx) as [H1|(j & k & Hj & Hk & Hv & Hdir & ->)].
    + destruct (Honly idx H1) as [H'|(i' & j & k & blk' & Hi'' & H')];
        [left; exact H'|right; exists i', j, k, blk'; split; [lia|exact H']].
    + right. exists i, j, k, blk. repeat split; assumption || lia.
  - exists a, m'. split.
    { unfold fs_initialize_free_block_bitmap. munfold.
      rewrite bool_decide_eq_true_2 by (rewrite Hd; discriminate).
      fold sb.
      replace (u32 (sb_blocks sb - inode_blocks sb))
        with (sb_blocks sb - inode_blocks sb)
        by (unfold u32, INT_MAX in *; rewrite Z.mod_small; lia).
      fold a0.
      match goal with
      | |- match ?X with _ => _ end = _ =>
          replace X with (@Ret (step (list bool) unit) (Continue a) m')
            by (symmetry; exact Hrun)
      end.
      reflexivity. }
    intros idx Hidx. destruct (Honly idx Hidx) as [H0|(i & j & k & blk & Hi & H)].
    + unfold a0 in H0. apply lookup_replicate in H0 as [H0 _]. discriminate H0.
    + exists i, j, k, blk. split; [lia|exact H].
Qed.

Lemma mount_bitmap_marks_only_referenced_witness :
  exists a m',
    fs_initialize_free_block_bitmap (Fixture.fs20 None) Fixture.populated
    = Ret (set_free_blocks (Fixture.fs20 None) a) m'
    /\ forall idx, a !! idx = Some true ->
         exists i j k blk,
           1 <= i <= 2
           /\ 0 <= j < INODES_PER_BLOCK
           /\ 0 <= k < POINTERS_PER_INODE
           /\ file Fixture.populated !! Z.to_nat i = Some blk
           /\ valid (block_inode blk j) <> 0
           /\ direct_at (block_inode blk j) k <> 0
           /\ idx = bit_index Fixture.super20
                      (direct_at (block_inode blk j) k).
Proof.
  apply (mount_bitmap_marks_only_referenced
           (Fixture.fs20 None) Fixture.disk20 Fixture.populated).
  - reflexivity.
  - simpl; lia.
  - simpl; lia.
  - simpl; lia.
  - vm_compute; discriminate.
  - vm_compute; discriminate.
  - vm_compute; reflexivity.
Defined.

(** *** fs_debug *)

Lemma to_int_u32_small n : 0 <= n <= INT_MAX -> to_int (u32 n) = n.
Proof.
  intros Hn. unfold to_int, u32, INT_MAX in *.
  rewrite Z.mod_mod by lia. rewrite Z.mod_small by lia.
  destruct (Z.ltb_spec n (2 ^ 31)); [reflexivity|lia].
Qed.

Lemma count_direct_spec ino m :
  count_direct ino m = Ret (Continue (assigned_pointers ino)) m.
Proof.
  unfold count_direct, assigned_pointers.
  change (map (direct_at ino) (seqZ 0 POINTERS_PER_INODE))
    with [direct_at ino 0; direct_at ino 1; direct_at ino 2;
          direct_at ino 3; direct_at ino 4].
  change (Z.to_nat POINTERS_PER_INODE) with 5%nat.
  cbn [for_int]. munfold.
  change (0 + 1) with 1. change (1 + 1) with 2. change (2 + 1) with 3.
  change (3 + 1) with 4.
  change (INT_MAX <? 0) with false. change (INT_MAX <? 1) with false.
  change (INT_MAX <? 2) with false. change (INT_MAX <? 3) with false.
  change (INT_MAX <? 4) with false. cbv iota.
  generalize (direct_at ino 0), (direct_at ino 1), (direct_at ino 2),
    (direct_at ino 3), (direct_at ino 4).
  intros d0 d1 d2 d3 d4.
  destruct (Z.eqb_spec d0 0) as [->|H0]; destruct (Z.eqb_spec d1 0) as [->|H1];
    destruct (Z.eqb_spec d2 0) as [->|H2]; destruct (Z.eqb_spec d3 0) as [->|H3];
    destruct (Z.eqb_spec d4 0) as [->|H4];
    repeat first [ rewrite filter_cons_True by assumption
                 | rewrite filter_cons_False by (intros H; apply H; reflexivity) ];
    reflexivity.
Qed.

Lemma debug_block_spec (i : Z) (blk : Block) (out0 : list debug_line)
    (m : Machine) :
  1 <= i -> i * INODES_PER_BLOCK <= INT_MAX ->
  exists added,
    debug_block i blk out0 m = Ret (Continue (out0 ++ added)) m
    /\ forall line, line ∈ added <->
         exists j, 0 <= j < INODES_PER_BLOCK
                   /\ valid (block_inode blk j) = 1
                   /\ line = debug_line_of i j blk.
Proof.
  intros Hi Hmax.
  pose (Inv := fun (j : Z) (out : list debug_line) (m' : Machine) =>
    m' = m /\ exists added, out = out0 ++ added
      /\ forall line, line ∈ added <->
           exists j', 0 <= j' < j /\ valid (block_inode blk j') = 1
                      /\ line = debug_line_of i j' blk).
  destruct (for_int_invariant (R := list debug_line) Inv
    (fun j out =>
       let inode := block_inode blk j in
       if valid inode =? 1 then
         n ← int_value ((i - 1) * INODES_PER_BLOCK + j);
         let inode_number := u32 n in
         r ← count_direct inode;
         match r with
         | Continue pointers =>
             mret (Continue
                     (out ++ [debug_inode (to_int inode_number)
                                (to_int (size inode)) pointers]))
         | Return v => mret (Return v)
         end
       else mret (Continue out))
    (Z.to_nat INODES_PER_BLOCK) 0 out0 m)
    as (out & m' & Hrun & -> & added & -> & Hadded).
  - unfold INT_MAX, INODES_PER_BLOCK. simpl. lia.
  - split; [reflexivity|]. exists []. split; [rewrite app_nil_r; reflexivity|].
    intros line. split; [intros H; inversion H|intros (j & Hj & _); lia].
  - intros j out m1 Hj (-> & added & -> & Hadded).
    assert (Hj' : 0 <= j < INODES_PER_BLOCK)
      by (unfold INODES_PER_BLOCK in *; simpl in Hj; lia).
    cbv zeta.
    destruct (Z.eqb_spec (valid (block_inode blk j)) 1) as [Hv|Hv].
    + unfold int_value. munfold.
      assert (Hn : 0 <= (i - 1) * INODES_PER_BLOCK + j <= INT_MAX)
        by (unfold INODES_PER_BLOCK, INT_MAX in *; lia).
      destruct (Z.leb_spec (- INT_MAX - 1) ((i - 1) * INODES_PER_BLOCK + j));
        [|unfold INT_MAX in *; lia].
      destruct (Z.leb_spec ((i - 1) * INODES_PER_BLOCK + j) INT_MAX); [|lia].
      change (true && true) with true. cbv beta iota.
      rewrite count_direct_spec. rewrite to_int_u32_small by exact Hn.
      eexists _, m. split; [reflexivity|]. split; [reflexivity|].
      exists (added ++ [debug_line_of i j blk]).
      split; [rewrite app_assoc; reflexivity|].
      intros line. rewrite elem_of_app, list_elem_of_singleton, Hadded.
      split.
      * intros [(j' & Hj'' & Hl)| ->]; [exists j'; split; [lia|exact Hl]|].
        exists j. split; [lia|]. split; [exact Hv|reflexivity].
      * intros (j' & Hj'' & Hv' & ->).
        destruct (decide (j' = j)) as [->|Hne]; [right; reflexivity|].
        left. exists j'. split; [lia|]. split; [exact Hv'|reflexivity].
    + exists (out0 ++ added), m. split; [reflexivity|]. split; [reflexivity|].
      exists added. split; [reflexivity|].
      intros line. rewrite Hadded. split.
      * intros (j' & Hj'' & Hl). exists j'. split; [lia|exact Hl].
      * intros (j' & Hj'' & Hv' & ->).
        destruct (decide (j' = j)) as [->|Hne]; [contradiction|].
        exists j'. split; [lia|]. split; [exact Hv'|reflexivity].
  - exists added. split; [exact Hrun|].
    intros line. rewrite Hadded. unfold INODES_PER_BLOCK. simpl. reflexivity.
Qed.

(** X10. On a device whose image holds the inode blocks, [fs_debug]
    prints the superblock fields as read from block 0 and then one
    entry for exactly those slots [j] of the inode blocks [i] whose
    [valid] field is 1, under the number [(i - 1) * 128 + j], with the
    size and the number of non-zero direct pointers; it leaves image
    and heap as they were. *)
Theorem fs_debug_lists_valid_inodes (d : Disk) (m : Machine) (blk0 : Block) :
  0 <= fd d ->
  file m !! 0%nat = Some blk0 ->
  0 <= inode_blocks (block_super blk0) < blocks d ->
  blocks d <= Z.of_nat (length (file m)) ->
  (inode_blocks (block_super blk0) + 1) * INODES_PER_BLOCK <= INT_MAX ->
  exists rest m',
    fs_debug (Some d) m
    = Ret (debug_super (magic_number (block_super blk0) =? MAGIC_NUMBER)
             (sb_blocks (block_super blk0)) (inode_blocks (block_super blk0))
             (inodes (block_super blk0)) :: rest) m'
    /\ file m' = file m /\ heap m' = heap m
    /\ forall line, line ∈ rest <->
         exists i j blk,
           1 <= i <= inode_blocks (block_super blk0)
           /\ 0 <= j < INODES_PER_BLOCK
           /\ file m !! Z.to_nat i = Some blk
           /\ valid (block_inode blk j) = 1
           /\ line = debug_line_of i j blk.
Proof.
  intros Hfd Hblk0 Hib Himg Hmax.
  set (sp := block_super blk0) in *.
  set (top := debug_super (magic_number sp =? MAGIC_NUMBER)
                (sb_blocks sp) (inode_blocks sp) (inodes sp)).
  set (m0 := log (io_read (0 * BLOCK_SIZE)) m).
  pose (Inv := fun (i : Z) (out : list debug_line) (m' : Machine) =>
    (file m' = file m /\ heap m' = heap m)
    /\ exists rest, out = top :: rest
      /\ forall line, line ∈ rest <->
           exists i' j blk,
             1 <= i' < i /\ 0 <= j < INODES_PER_BLOCK
             /\ file m !! Z.to_nat i' = Some blk
             /\ valid (block_inode blk j) = 1
             /\ line = debug_line_of i' j blk).
  destruct (for_int_invariant (R := list debug_line) Inv
    (fun i out =>
       blk ← uninit_block;
       '(n, blk) ← disk_read_blk (Some d) i blk;
       if n =? DISK_FAILURE then mret (Return out)
       else debug_block i blk out)
    (Z.to_nat (inode_blocks sp)) 1 [top] m0)
    as (out & m' & Hrun & Hst & rest & -> & Hrest).
  - unfold INT_MAX, INODES_PER_BLOCK in *. lia.
  - split; [split; reflexivity|]. exists []. split; [reflexivity|].
    intros line. split; [intros H; inversion H|intros (i & j & blk & Hi & _); lia].
  - intros i out m1 Hi ([Hf Hh] & rest & -> & Hrest).
    destruct (lookup_lt_is_Some_2 (file m) (Z.to_nat i) ltac:(lia))
      as [blk Hblk].
    munfold.
    rewrite (disk_read_blk_ok d i _ blk)
      by (try assumption; try (unfold INT_MAX, INODES_PER_BLOCK in *; lia);
          rewrite Hf; exact Hblk).
    change (BLOCK_SIZE =? DISK_FAILURE) with false. cbv iota.
    destruct (debug_block_spec i blk (top :: rest)
                (log (io_read (i * BLOCK_SIZE)) m1))
      as (added & Hrun & Hadded);
      [lia|unfold INT_MAX, INODES_PER_BLOCK in *; lia|].
    eexists _, _. split; [exact Hrun|].
    split; [split; assumption|].
    exists (rest ++ added). split; [reflexivity|].
    intros line. rewrite elem_of_app, Hrest, Hadded. split.
    + intros [(i' & j & blk' & Hi' & H)|(j & Hj & Hv & ->)].
      * exists i', j, blk'. split; [lia|exact H].
      * exists i, j, blk. split; [lia|]. repeat split; assumption || lia.
    + intros (i' & j & blk' & Hi' & Hj & Hblk' & Hv & ->).
      destruct (decide (i' = i)) as [->|Hne].
      * right. assert (blk' = blk) as -> by congruence.
        exists j. repeat split; assumption || lia.
      * left. exists i', j, blk'. split; [lia|]. repeat split; assumption || lia.
  - exists rest, m'. split.
    { unfold fs_debug. munfold.
      rewrite (disk_read_blk_ok d 0 _ blk0 m Hfd ltac:(lia)
                 ltac:(unfold INT_MAX, INODES_PER_BLOCK in *; lia) Hblk0).
      change (BLOCK_SIZE =? DISK_FAILURE) with false. cbv iota zeta.
      fold sp. fold top. fold m0. cbv beta.
      match goal with
      | |- context [for_int ?n ?i ?b ?s ?mm] =>
          replace (for_int n i b s mm)
            with (@Ret (step (list debug_line) (list debug_line))
                    (Continue (top :: rest)) m')
            by (symmetry; exact Hrun)
      end.
      reflexivity. }
    split; [exact (proj1 Hst)|]. split; [exact (proj2 Hst)|].
    intros line. rewrite Hrest. split.
    + intros (i & j & blk & Hi & H). exists i, j, blk. split; [lia|exact H].
    + intros (i & j & blk & Hi & H). exists i, j, blk. split; [lia|exact H].
Qed.

Lemma fs_debug_lists_valid_inodes_witness :
  exists rest m',
    fs_debug (Some Fixture.disk20) Fixture.populated
    = Ret (debug_super true 20 2 256 :: rest) m'
    /\ file m' = file Fixture.populated /\ heap m' = heap Fixture.populated
    /\ forall line, line ∈ rest <->
         exists i j blk,
           1 <= i <= 2
           /\ 0 <= j < INODES_PER_BLOCK
           /\ file Fixture.populated !! Z.to_nat i = Some blk
           /\ valid (block_inode blk j) = 1
           /\ line = debug_line_of i j blk.
Proof.
  apply (fs_debug_lists_valid_inodes Fixture.disk20 Fixture.populated
           (set_block_super Fixture.super20 zero_block)).
  - simpl; lia.
  - reflexivity.
  - vm_compute; split; [discriminate|reflexivity].
  - vm_compute; discriminate.
  - vm_compute; discriminate.
Defined.

(** *** fs_remove *)

Lemma fs_load_inode_false_store fs n node m p m' :
  fs_load_inode fs n node m = Ret (false, p) m' ->
  file m' = file m /\ heap m' = heap m.
Proof.
  unfold fs_load_inode. munfold.
  destruct (bool_decide (disk fs ≠ None)); [|discriminate].
  destruct (bool_decide (node = NULL)); [|discriminate].
  destruct (disk_read_blk _ _ _ _) as [[r blk] m1| |] eqn:Hr; [|discriminate..].
  apply disk_read_blk_store in Hr.
  destruct (r =? DISK_FAILURE); [intros H; inversion H; subst; exact Hr|].
  destruct (_ =? 0); [intros H; inversion H; subst; exact Hr|].
  unfold malloc_inode. intros H; inversion H.
Qed.

(** X11. [fs_remove] releases nothing: whenever it returns, it returns
    false, and the handle with its bitmap, the image and the heap are
    what they were before the call. *)
Theorem fs_remove_changes_nothing (fs : FileSystem) (n : Z) (m : Machine)
    (b : bool) (fs' : FileSystem) (m' : Machine) :
  fs_remove fs n m = Ret (b, fs') m' ->
  b = false /\ fs' = fs /\ file m' = file m /\ heap m' = heap m.
Proof.
  unfold fs_remove. munfold.
  destruct (fs_load_inode fs n NULL m) as [[[] p] m1| |] eqn:Hl;
    [|apply fs_load_inode_false_store in Hl|discriminate..].
  - change (fs_remove_loaded fs n NULL m1) with (@Fault (bool * FileSystem)).
    discriminate.
  - simpl. intros H; inversion H; subst.
    split; [reflexivity|]. split; [reflexivity|exact Hl].
Qed.

Lemma fs_remove_changes_nothing_witness :
  fs_remove Fixture.mounted3 2560 Fixture.populated
    = Ret (false, Fixture.mounted3) Fixture.populated
  /\ file Fixture.populated = file Fixture.populated.
Proof.
  assert (H : fs_remove Fixture.mounted3 2560 Fixture.populated
              = Ret (false, Fixture.mounted3) Fixture.populated)
    by (vm_compute; reflexivity).
  split; [exact H|].
  exact (proj1 (proj2 (proj2 (fs_remove_changes_nothing _ _ _ _ _ _ H)))).
Defined.
